(** * vite-dev-auth-plugin: cookie jar, path filter, unauthenticated-response
      detector and refresh gate.

    A shallow embedding of cookieUtils.ts, options.ts, proxyHandler.ts, the
    plugin entry file and the all-in-one index.ts.

    - JavaScript strings are [string]: header values reach the plugin through
      Node's HTTP parser, which decodes them as Latin-1, one code unit per
      byte.  [string | undefined] is [option string].
    - A function that can throw returns a [Js.Completion] next to the state
      it leaves behind; the jar is shared, so what was stored before a throw
      stays stored.
    - The log sink [onLog] is taken to return.  [setHeader] throws once the
      head of the request is written ([setHeader], [sendProxied]); the machine
      records the header a hook asks for, not the header that is sent.
    - [RegExp] objects carry no [g] or [y] flag.
    - The event loop is a machine whose steps are the callbacks of the
      plugin; what axios answers is an input of the run. *)

From Stdlib Require Import Strings.String Strings.Ascii Lists.List Bool.Bool
  Arith.Arith ZArith.ZArith micromega.Lia.
Import ListNotations.

Local Open Scope string_scope.
Local Open Scope list_scope.

(** ** JavaScript string primitives used by the plugin *)

Module Js.

(** Truthiness of a [string | undefined] value: [undefined] and [""] are falsy. *)
Definition truthy (v : option string) : bool :=
  match v with
  | Some (String _ _) => true
  | _ => false
  end.

(** [s.split(sep)] for a one-character separator; never returns an empty array. *)
Fixpoint split (sep : ascii) (s : string) : list string :=
  match s with
  | EmptyString => [EmptyString]
  | String c rest =>
      if Ascii.eqb c sep then EmptyString :: split sep rest
      else match split sep rest with
           | [] => [String c EmptyString]
           | seg :: segs => String c seg :: segs
           end
  end.

(** [s.indexOf(c)]: position of the first occurrence, or -1. *)
Fixpoint indexOf (c : ascii) (s : string) : Z :=
  match s with
  | EmptyString => (-1)%Z
  | String d rest =>
      if Ascii.eqb d c then 0%Z
      else let i := indexOf c rest in
           if (i <? 0)%Z then (-1)%Z else (i + 1)%Z
  end.

(** Relative index of [slice]: negative counts from the end, all clamped. *)
Definition relIndex (len k : Z) : Z :=
  if (k <? 0)%Z then Z.max (len + k) 0 else Z.min k len.

(** [s.slice(from, to)]. *)
Definition slice (s : string) (from to : Z) : string :=
  let len := Z.of_nat (String.length s) in
  let a := relIndex len from in
  let b := relIndex len to in
  substring (Z.to_nat a) (Z.to_nat (Z.max (b - a) 0)) s.

(** [s.slice(from)]. *)
Definition sliceFrom (s : string) (from : Z) : string :=
  slice s from (Z.of_nat (String.length s)).

(** WhiteSpace and LineTerminator code units below 256:
    TAB, LF, VT, FF, CR, SP, NBSP. *)
Definition isWhiteSpace (c : ascii) : bool :=
  let n := nat_of_ascii c in
  existsb (Nat.eqb n) [9; 10; 11; 12; 13; 32; 160].

Fixpoint trimStart (s : string) : string :=
  match s with
  | EmptyString => EmptyString
  | String c rest => if isWhiteSpace c then trimStart rest else s
  end.

Fixpoint trimEnd (s : string) : string :=
  match s with
  | EmptyString => EmptyString
  | String c rest =>
      match trimEnd rest with
      | EmptyString => if isWhiteSpace c then EmptyString else String c EmptyString
      | t => String c t
      end
  end.

(** [s.trim()]. *)
Definition trim (s : string) : string := trimEnd (trimStart s).

(** [s.startsWith(p)]. *)
Definition startsWith (s p : string) : bool := String.prefix p s.

(** [s[i]]: the code unit at [i], or [undefined]. *)
Definition charAt (s : string) (i : nat) : option ascii := String.get i s.

(** [parts.join(sep)]. *)
Definition join (sep : string) (parts : list string) : string :=
  String.concat sep parts.

(** Values a [catch] clause can receive. *)
Inductive Thrown : Type :=
| ErrorObject (name message : string)   (* e instanceof Error *)
| ThrownString (s : string)             (* typeof e === "string" *)
| ThrownOther (message : option string) (rendered : string).
    (* anything else: [message] is its [message] property when it is an
       object that has one (taken to be a string), [rendered] is String(e) *)

(** Completion of a statement list: it runs to its end or throws. *)
Inductive Completion : Type :=
| Normal
| Abrupt (e : Thrown).

(** What V8 throws for [undefined.trim()]. *)
Definition trimOfUndefined : Thrown :=
  ErrorObject "TypeError" "Cannot read properties of undefined (reading 'trim')".

End Js.

(** ** The cookie jar: [Map<string, string>]

    A JavaScript [Map] enumerates its entries in insertion order and [set] on
    a present key replaces the value in place, so the jar is an association
    list in insertion order. *)

Definition CookieJar : Type := list (string * string).

Module JsMap.

(** [new Map()]. *)
Definition empty : CookieJar := [].

(** [jar.set(k, v)]. *)
Fixpoint set (jar : CookieJar) (k v : string) : CookieJar :=
  match jar with
  | [] => [(k, v)]
  | (k', v') :: rest =>
      if String.eqb k' k then (k, v) :: rest else (k', v') :: set rest k v
  end.

(** [jar.get(k)]. *)
Fixpoint get (jar : CookieJar) (k : string) : option string :=
  match jar with
  | [] => None
  | (k', v') :: rest => if String.eqb k' k then Some v' else get rest k
  end.

(** [Array.from(jar.entries())]. *)
Definition entries (jar : CookieJar) : list (string * string) := jar.

(** [Array.from(jar.keys())]. *)
Definition keys (jar : CookieJar) : list string := map fst jar.

End JsMap.

(** The [raw] argument of [storeCookies]: [string | string[] | undefined]. *)
Inductive RawCookies : Type :=
| RawUndefined
| RawString (s : string)
| RawArray (lines : list string).

(** [if (!raw) return; const lines = Array.isArray(raw) ? raw : [raw];]
    [None] is the early return; an empty string is falsy, an empty array
    is not. *)
Definition linesOf (raw : RawCookies) : option (list string) :=
  match raw with
  | RawUndefined => None
  | RawString s => if Js.truthy (Some s) then Some [s] else None
  | RawArray lines => Some lines
  end.

(** ** cookieUtils.ts *)

Module CookieUtils.

(** Body of the [forEach] callback:
    [const [nv] = line.split(";");]
    [const [name, value] = nv.split("=");]
    [if (name) jar.set(name.trim(), value.trim());]
    Destructuring past the end of the array gives [undefined]; calling a
    method on [undefined] throws, before [jar.set] is entered. *)
Definition storeLine (jar : CookieJar) (line : string)
  : CookieJar * Js.Completion :=
  match nth_error (Js.split ";" line) 0 with
  | None => (jar, Js.Abrupt Js.trimOfUndefined)
  | Some nv =>
      let parts := Js.split "=" nv in
      let name := nth_error parts 0 in
      let value := nth_error parts 1 in
      match name with
      | Some n =>
          if Js.truthy name then
            match value with
            | Some v => (JsMap.set jar (Js.trim n) (Js.trim v), Js.Normal)
            | None => (jar, Js.Abrupt Js.trimOfUndefined)
            end
          else (jar, Js.Normal)
      | None => (jar, Js.Normal)
      end
  end.

(** [lines.forEach(...)]: an exception leaves the loop; the jar keeps what
    earlier iterations stored in it. *)
Fixpoint forEachLine (jar : CookieJar) (lines : list string)
  : CookieJar * Js.Completion :=
  match lines with
  | [] => (jar, Js.Normal)
  | line :: rest =>
      match storeLine jar line with
      | (jar', Js.Normal) => forEachLine jar' rest
      | (jar', Js.Abrupt e) => (jar', Js.Abrupt e)
      end
  end.

Definition storeCookies (jar : CookieJar) (raw : RawCookies)
  : CookieJar * Js.Completion :=
  match linesOf raw with
  | None => (jar, Js.Normal)
  | Some lines => forEachLine jar lines
  end.

(** [Array.from(jar.entries()).map(([k, v]) => `${k}=${v}`).join("; ")]. *)
Definition jarToString (jar : CookieJar) : string :=
  Js.join "; " (map (fun kv => fst kv ++ "=" ++ snd kv)%string (JsMap.entries jar)).

End CookieUtils.

(** ** index.ts: the cookie-jar utilities of the all-in-one file *)

Module Index.

(** Body of the [for ... of] loop:
    [const [pair] = line.split(";");]
    [const idx = pair.indexOf("=");]
    [if (idx > 0) { jar.set(pair.slice(0, idx).trim(), pair.slice(idx + 1).trim()); }] *)
Definition storeLine (jar : CookieJar) (line : string)
  : CookieJar * Js.Completion :=
  match nth_error (Js.split ";" line) 0 with
  | None => (jar, Js.Abrupt Js.trimOfUndefined)
  | Some pair_ =>
      let idx := Js.indexOf "=" pair_ in
      if (idx >? 0)%Z then
        let name := Js.trim (Js.slice pair_ 0 idx) in
        let value := Js.trim (Js.sliceFrom pair_ (idx + 1)) in
        (JsMap.set jar name value, Js.Normal)
      else (jar, Js.Normal)
  end.

Fixpoint forOfLines (jar : CookieJar) (lines : list string)
  : CookieJar * Js.Completion :=
  match lines with
  | [] => (jar, Js.Normal)
  | line :: rest =>
      match storeLine jar line with
      | (jar', Js.Normal) => forOfLines jar' rest
      | (jar', Js.Abrupt e) => (jar', Js.Abrupt e)
      end
  end.

Definition storeCookies (jar : CookieJar) (raw : RawCookies)
  : CookieJar * Js.Completion :=
  match linesOf raw with
  | None => (jar, Js.Normal)
  | Some lines => forOfLines jar lines
  end.

Definition jarToString (jar : CookieJar) : string :=
  Js.join "; " (map (fun kv => fst kv ++ "=" ++ snd kv)%string (JsMap.entries jar)).

End Index.

(** ** Regular expressions

    A [RegExp] object without the [g] and [y] flags: [test] does not depend on
    [lastIndex], so the object is its acceptance function. *)

Record RegExp : Type := { test : string -> bool }.

(** The literals of the source, [/^\/api/] and [/\/(login|sso)\//i], are
    built from characters, concatenation, alternation and [^]; they are run
    by a backtracking matcher in continuation-passing style. *)
Module Regex.

Inductive Node : Type :=
| Empty
| Char (c : ascii)
| Seq (a b : Node)
| Alt (a b : Node)
| LineStart.

(** Canonicalize of a non-unicode, ignore-case pattern: the upper-case
    mapping, except that a code unit of 128 or more never folds to one
    below 128.  The result can leave Latin-1 (U+00B5, U+00FF), so it is a
    number. *)
Definition canonicalize (ignoreCase : bool) (c : ascii) : N :=
  let n := N_of_ascii c in
  if negb ignoreCase then n
  else if ((97 <=? n) && (n <=? 122))%N then (n - 32)%N
  else if ((224 <=? n) && (n <=? 254) && negb (n =? 247))%N then (n - 32)%N
  else if (n =? 181)%N then 924%N
  else if (n =? 255)%N then 376%N
  else n.

Definition sameChar (ignoreCase : bool) (a b : ascii) : bool :=
  (canonicalize ignoreCase a =? canonicalize ignoreCase b)%N.

(** [matchNode ic n k atStart s]: [n] matches a prefix of [s] and the
    continuation [k] accepts what follows; [atStart] tells whether [s]
    begins at index 0 of the input. *)
Fixpoint matchNode (ic : bool) (n : Node) (k : bool -> string -> bool)
  (atStart : bool) (s : string) : bool :=
  match n with
  | Empty => k atStart s
  | Char c =>
      match s with
      | EmptyString => false
      | String d rest => sameChar ic c d && k false rest
      end
  | Seq a b => matchNode ic a (matchNode ic b k) atStart s
  | Alt a b => matchNode ic a k atStart s || matchNode ic b k atStart s
  | LineStart => atStart && k atStart s
  end.

(** The search loop of [RegExp.prototype.exec]: try every start index. *)
Fixpoint search (ic : bool) (n : Node) (atStart : bool) (s : string) : bool :=
  matchNode ic n (fun _ _ => true) atStart s
  || match s with
     | EmptyString => false
     | String _ rest => search ic n false rest
     end.

Definition literal (n : Node) (ignoreCase : bool) : RegExp :=
  {| test := search ignoreCase n true |}.

(** A run of literal characters. *)
Fixpoint chars (s : string) : Node :=
  match s with
  | EmptyString => Empty
  | String c rest => Seq (Char c) (chars rest)
  end.

End Regex.

(** ** options.ts *)

(** The response headers the plugin reads. *)
Record IncomingHttpHeaders : Type := {
  location : option string;          (* headers.location *)
  set_cookie : RawCookies            (* headers["set-cookie"] *)
}.

Definition noHeaders : IncomingHttpHeaders :=
  {| location := None; set_cookie := RawUndefined |}.

(** [RegExp | string]. *)
Inductive PathRule : Type :=
| RuleString (p : string)
| RuleRegExp (r : RegExp).

(** The request description handed to axios; its content is not inspected. *)
Inductive AxiosRequestConfig : Type :=
| axiosRequestConfig (fields : list (string * string)).

(** The options the proxy reads.  A field left out is [None];
    [headlessLogin: false] is [Some None]. *)
Record AuthDevPluginOptions : Type := {
  opt_apiPaths : option (list PathRule);
  opt_headlessLogin : option (option AxiosRequestConfig);
  opt_unauthDetector : option (Z -> IncomingHttpHeaders -> bool)
}.

Record NormalizedOptions : Type := {
  apiPaths : list PathRule;
  headlessLogin : option AxiosRequestConfig;      (* [None] is [false] *)
  unauthDetector : Z -> IncomingHttpHeaders -> bool
}.

(** [/^\/api/] *)
Definition defaultApiPattern : RegExp :=
  Regex.literal (Regex.Seq Regex.LineStart (Regex.chars "/api")) false.

(** [/\/(login|sso)\//i] *)
Definition loginOrSsoPattern : RegExp :=
  Regex.literal
    (Regex.Seq (Regex.Char "/")
       (Regex.Seq (Regex.Alt (Regex.chars "login") (Regex.chars "sso"))
          (Regex.Char "/")))
    true.

(** [(status, headers) => status === 401 ||]
    [(status === 302 && /\/(login|sso)\//i.test(headers.location ?? ""))] *)
Definition defaultUnauthDetector (status : Z) (headers : IncomingHttpHeaders)
  : bool :=
  (status =? 401)%Z
  || ((status =? 302)%Z
      && test loginOrSsoPattern
           (match location headers with Some l => l | None => "" end)).

(** The fields of [normalizeOptions] that the proxy uses.
    [opts.apiPaths || [/^\/api/]]: an array, even an empty one, is truthy. *)
Definition normalizeOptions (opts : AuthDevPluginOptions) : NormalizedOptions :=
  {| apiPaths :=
       match opt_apiPaths opts with
       | Some rules => rules
       | None => [RuleRegExp defaultApiPattern]
       end;
     headlessLogin :=
       match opt_headlessLogin opts with
       | None => None
       | Some h => h
       end;
     unauthDetector :=
       match opt_unauthDetector opts with
       | Some d => d
       | None => defaultUnauthDetector
       end |}.

(** Options with every field left out. *)
Definition noOptions : AuthDevPluginOptions :=
  {| opt_apiPaths := None; opt_headlessLogin := None; opt_unauthDetector := None |}.

(** ** proxyHandler.ts: the path filter and the cookie header *)

(** One rule of [filterFunction]:
    [pathname.startsWith(p) &&]
    [(pathname.length === p.length || pathname[p.length] === "/")]
    for a string, [p.test(pathname)] for a pattern. *)
Definition ruleMatches (pathname : string) (p : PathRule) : bool :=
  match p with
  | RuleString p =>
      Js.startsWith pathname p
      && ((String.length pathname =? String.length p)%nat
          || match Js.charAt pathname (String.length p) with
             | Some c => Ascii.eqb c "/"
             | None => false
             end)
  | RuleRegExp r => test r pathname
  end.

(** [apiPaths.some(...)]. *)
Definition filterFunction (apiPaths : list PathRule) (pathname : string) : bool :=
  existsb (ruleMatches pathname) apiPaths.

(** [.filter(Boolean)] on an array of [string | undefined]. *)
Fixpoint filterBoolean (parts : list (option string)) : list string :=
  match parts with
  | [] => []
  | Some s :: rest =>
      if Js.truthy (Some s) then s :: filterBoolean rest else filterBoolean rest
  | None :: rest => filterBoolean rest
  end.

(** [[existingCookies, pluginCookies].filter(Boolean).join("; ")]. *)
Definition combinedCookies (existingCookies : option string) (jar : CookieJar)
  : string :=
  let pluginCookies := CookieUtils.jarToString jar in
  Js.join "; " (filterBoolean [existingCookies; Some pluginCookies]).

(** The [proxyReq] hook after the gate:
    [if (combinedCookies) proxyReq.setHeader("cookie", combinedCookies);]
    [Some v] is a call of [setHeader] with value [v], [None] is no call. *)
Definition proxyReqSetHeader (existingCookies : option string) (jar : CookieJar)
  : option string :=
  let combined := combinedCookies existingCookies jar in
  if Js.truthy (Some combined) then Some combined else None.

(** The [cookie] header the hook asks for: the value it hands to
    [setHeader] when it makes the call, the header as it came when it makes
    none.  It is the header of the request only if the call takes effect,
    which [setHeader] and [sendProxied] below decide. *)
Definition cookieHeaderAfter (existingCookies : option string) (jar : CookieJar)
  : option string :=
  match proxyReqSetHeader existingCookies jar with
  | Some combined => Some combined
  | None => existingCookies
  end.

(** *** The hook and the request head

    [http.ClientRequest] as far as the hook uses it: the [cookie] header and
    whether the request head has been written out. *)
Record OutgoingRequest : Type := {
  cookieHeader : option string;
  headersSent : bool
}.

(** The request as the transport hands it to the [proxyReq] listener. *)
Definition freshRequest (existingCookies : option string) : OutgoingRequest :=
  {| cookieHeader := existingCookies; headersSent := false |}.

(** What Node throws ([ERR_HTTP_HEADERS_SENT]) for [setHeader] on a request
    whose head is written. *)
Definition errHeadersSent : Js.Thrown :=
  Js.ErrorObject "Error" "Cannot set headers after they are sent to the client".

(** [proxyReq.getHeader("cookie")]. *)
Definition getHeader (req : OutgoingRequest) : option string :=
  cookieHeader req.

(** [proxyReq.setHeader("cookie", value)]: replaces the header while the head
    is not written, throws and changes nothing afterwards. *)
Definition setHeader (value : string) (req : OutgoingRequest)
  : OutgoingRequest * Js.Completion :=
  if headersSent req then (req, Js.Abrupt errHeadersSent)
  else ({| cookieHeader := Some value; headersSent := false |}, Js.Normal).

(** The transport writes the head of the request. *)
Definition writeHead (req : OutgoingRequest) : OutgoingRequest :=
  {| cookieHeader := cookieHeader req; headersSent := true |}.

(** The async function of the hook from the statement after
    [await gateRefresh()] on: it reads the header, composes and calls
    [setHeader] if there is something to send.  It reads the jar when it
    runs. *)
Definition proxyReqResumed (jar : CookieJar) (req : OutgoingRequest)
  : OutgoingRequest * Js.Completion :=
  match proxyReqSetHeader (getHeader req) jar with
  | Some combined => setHeader combined req
  | None => (req, Js.Normal)
  end.

(** The [proxyReq] listener:
    [(proxyReq) => { void (async () => { await gateRefresh(); ... })(); }]
    (index.ts: [(async () => {...})().catch(() => {})]).
    The listener is synchronous and does not wait for the async function it
    starts.  [await] suspends that function before the next statement, also
    when [gateRefresh] finds nothing to wait for, so the listener returns the
    request as it came, together with the rest of the function as a job for
    the microtask queue. *)
Definition proxyReqListener (req : OutgoingRequest)
  : OutgoingRequest
    * (CookieJar -> OutgoingRequest -> OutgoingRequest * Js.Completion) :=
  (req, proxyReqResumed).

(** What the caller of the listener does once the listener has returned.
    The listener's contract is synchronous: http-proxy emits [proxyReq] and
    goes on to pipe the incoming request into the outbound one, which writes
    the head ([HeadWrittenFirst]).  [JobsRunFirst] is a transport that lets
    the microtask queue drain before it writes the head. *)
Inductive Transport : Type := HeadWrittenFirst | JobsRunFirst.

(** One proxied request, from the emission of [proxyReq] to the written
    head: the request that goes out and how the async function ended. *)
Definition sendProxied (t : Transport) (jar : CookieJar)
  (existingCookies : option string) : OutgoingRequest * Js.Completion :=
  let (req, job) := proxyReqListener (freshRequest existingCookies) in
  match t with
  | HeadWrittenFirst => job jar (writeHead req)
  | JobsRunFirst =>
      let (req', c) := job jar req in (writeHead req', c)
  end.

(** ** The two builds

    The repository holds the plugin twice: split over cookieUtils.ts,
    options.ts, proxyHandler.ts and the plugin entry file, and once more as the
    single file index.ts.  The copies differ in [storeCookies], in the text
    of the log lines and in what [configureServer] does with the gate
    variable. *)

Inductive Build : Type := Modular | AllInOne.

(** What becomes of an exception of the async function of the [proxyReq]
    hook: proxyHandler.ts discards the promise ([void]), the rejection is
    handled by nobody; index.ts ends the call with [.catch(() => {})]. *)
Definition unhandledRejection (b : Build) (c : Js.Completion)
  : option Js.Thrown :=
  match b, c with
  | Modular, Js.Abrupt e => Some e
  | Modular, Js.Normal => None
  | AllInOne, _ => None
  end.

Definition storeCookies (b : Build) : CookieJar -> RawCookies -> CookieJar * Js.Completion :=
  match b with
  | Modular => CookieUtils.storeCookies
  | AllInOne => Index.storeCookies
  end.

(** ** doHeadlessLogin *)

(** Lines handed to [onLog] by [doHeadlessLogin] and by the proxy hooks:
    [`headless login (${label})`] followed by a check mark (index.ts:
    [succeeded]),
    [`headless login (${label}) failed: ${message}`], and the line that
    announces a refresh after an unauthenticated response.

    A [LogLine] is the kind of the line with the values interpolated into
    it, not its text.  The text differs between the builds (the prefix is
    written with a non-breaking hyphen in proxyHandler.ts and with a plain
    one in index.ts, the success line ends with a check mark in the one and
    with [succeeded] in the other) and holds characters beyond the 8-bit code
    units of [string].  Equal [LogLine]s of the two builds are lines of the
    same kind with the same label and message, not the same text. *)
Inductive LogLine : Type :=
| LoginSucceeded (label : string)
| LoginFailed (label message : string)
| UnauthRefresh.

(** What [doHeadlessLogin] reads and writes: the shared jar and the log sink.
    The sink is modelled as a list that only grows: [onLog] returns. *)
Record Store : Type := {
  jar : CookieJar;
  logged : list LogLine
}.

Definition Stmt : Type := Store -> Store * Js.Completion.

Definition onLog (l : LogLine) : Stmt :=
  fun st => ({| jar := jar st; logged := logged st ++ [l] |}, Js.Normal).

(** [s1; s2] *)
Definition andThen (s1 s2 : Stmt) : Stmt :=
  fun st =>
    match s1 st with
    | (st', Js.Normal) => s2 st'
    | (st', Js.Abrupt e) => (st', Js.Abrupt e)
    end.

(** [try { body } catch (e) { handler(e) }]: the handler starts from the
    state the body had reached when it threw. *)
Definition tryCatch (body : Stmt) (handler : Js.Thrown -> Stmt) : Stmt :=
  fun st =>
    match body st with
    | (st', Js.Normal) => (st', Js.Normal)
    | (st', Js.Abrupt e) => handler e st'
    end.

(** [storeCookies(jar, raw)] on the shared jar. *)
Definition storeCookiesStmt (b : Build) (raw : RawCookies) : Stmt :=
  fun st =>
    let (jar', c) := storeCookies b (jar st) raw in
    ({| jar := jar'; logged := logged st |}, c).

(** How the awaited [axios(...)] call ends: a response that
    [validateStatus] accepts (2xx unless the request config says otherwise), or
    a rejection (transport error, refused status, timeout). *)
Inductive AxiosOutcome : Type :=
| AxiosResponse (headers : IncomingHttpHeaders)
| AxiosError (e : Js.Thrown).

(** The message of the [catch] clause.
    proxyHandler.ts: [e.message] of an [Error], [e] itself when a string, else
    ["Unknown error during headless login"].
    index.ts:
    [(err instanceof Error ? err.message
      : err && typeof err === "object" && "message" in err ? err.message
      : undefined) || err],
    rendered by the template literal: the [message] property of an [Error]
    and of any other object that has one, and the thrown value itself when
    there is no such property or it is empty ([String(e)] of an [Error] whose
    message is empty is its name). *)
Definition failureMessage (b : Build) (e : Js.Thrown) : string :=
  match b, e with
  | Modular, Js.ErrorObject _ message => message
  | Modular, Js.ThrownString s => s
  | Modular, Js.ThrownOther _ _ => "Unknown error during headless login"
  | AllInOne, Js.ErrorObject name message =>
      if Js.truthy (Some message) then message else name
  | AllInOne, Js.ThrownString s => s
  | AllInOne, Js.ThrownOther message rendered =>
      if Js.truthy message
      then match message with Some m => m | None => rendered end
      else rendered
  end.

(** The [try]/[catch] of [doHeadlessLogin], from the point where the awaited
    axios call has ended. *)
Definition afterAxios (b : Build) (label : string) (res : AxiosOutcome) : Stmt :=
  tryCatch
    (fun st =>
       match res with
       | AxiosError e => (st, Js.Abrupt e)
       | AxiosResponse headers =>
           andThen (storeCookiesStmt b (set_cookie headers))
                   (onLog (LoginSucceeded label)) st
       end)
    (fun e => onLog (LoginFailed label (failureMessage b e))).

(** [doHeadlessLogin(jar, options, label)], with the end of the axios call
    supplied by the environment.  [if (!headlessLogin) return;] *)
Definition doHeadlessLogin (b : Build) (opts : NormalizedOptions)
  (label : string) (net : AxiosOutcome) : Stmt :=
  fun st =>
    match headlessLogin opts with
    | None => (st, Js.Normal)
    | Some _ => afterAxios b label net st
    end.

(** ** The proxy as an event-driven machine

    One step is one callback of the event loop together with the promise
    reactions that are due when it returns.  A promise is named by the number
    of the [doHeadlessLogin] call that made it. *)

(** Who called [doHeadlessLogin]: [configureServer] or the [proxyRes] hook. *)
Inductive Caller : Type := Startup | Refresh.

Definition labelOf (c : Caller) : string :=
  match c with
  | Startup => "startup"
  | Refresh => "refresh"
  end.

(** The outbound request as the [proxyReq] hook sees it. *)
Record ClientRequest : Type := {
  reqId : nat;
  cookie : option string        (* proxyReq.getHeader("cookie") *)
}.

(** What an observer of the run can see, in order.  [CookieComposed] is
    the hook body running for a request, with the header it asks for. *)
Inductive Obs : Type :=
| LoginStarted (p : nat) (c : Caller)
| LoginSettled (p : nat)
| CookieComposed (reqId : nat) (header : option string)
| HandlerThrew (e : Js.Thrown).

Record Server : Type := {
  store : Store;
  (** [refreshingPromise] (index.ts: [globalRefresh]), read by [gateRefresh] *)
  refreshingPromise : option nat;
  (** [None] until [createApiProxy] has run and the middleware is installed;
      then the value of its [activeRefreshPromise] (index.ts: [activeRefresh]) *)
  proxy : option (option nat);
  (** [doHeadlessLogin] calls suspended at [await axios(...)] *)
  pending : list (nat * Caller);
  (** [proxyReq] hooks suspended in [gateRefresh] on a promise *)
  parked : list (nat * ClientRequest);
  (** number of [doHeadlessLogin] calls made so far *)
  started : nat;
  history : list Obs
}.

Definition withStore (st : Store) (s : Server) : Server :=
  {| store := st; refreshingPromise := refreshingPromise s; proxy := proxy s;
     pending := pending s; parked := parked s; started := started s;
     history := history s |}.

Definition withGate (g : option nat) (s : Server) : Server :=
  {| store := store s; refreshingPromise := g; proxy := proxy s;
     pending := pending s; parked := parked s; started := started s;
     history := history s |}.

Definition withProxy (a : option (option nat)) (s : Server) : Server :=
  {| store := store s; refreshingPromise := refreshingPromise s; proxy := a;
     pending := pending s; parked := parked s; started := started s;
     history := history s |}.

Definition withPending (l : list (nat * Caller)) (s : Server) : Server :=
  {| store := store s; refreshingPromise := refreshingPromise s; proxy := proxy s;
     pending := l; parked := parked s; started := started s;
     history := history s |}.

Definition withParked (l : list (nat * ClientRequest)) (s : Server) : Server :=
  {| store := store s; refreshingPromise := refreshingPromise s; proxy := proxy s;
     pending := pending s; parked := l; started := started s;
     history := history s |}.

Definition observe (o : Obs) (s : Server) : Server :=
  {| store := store s; refreshingPromise := refreshingPromise s; proxy := proxy s;
     pending := pending s; parked := parked s; started := started s;
     history := history s ++ [o] |}.

(** A call of [doHeadlessLogin] up to its first suspension.  With
    [headlessLogin] off the call returns at once and its promise is already
    fulfilled; otherwise it is suspended on the axios call. *)
Definition callDoHeadlessLogin (opts : NormalizedOptions) (c : Caller)
  (s : Server) : Server * nat * bool :=
  let p := started s in
  let s1 :=
    observe (LoginStarted p c)
      {| store := store s; refreshingPromise := refreshingPromise s;
         proxy := proxy s; pending := pending s; parked := parked s;
         started := S p; history := history s |} in
  match headlessLogin opts with
  | None => (observe (LoginSettled p) s1, p, true)
  | Some _ => (withPending (pending s1 ++ [(p, c)]) s1, p, false)
  end.

(** [configureServer]: the first callback of the run.
    Plugin entry file: [await doHeadlessLogin(jar, options, "startup")], then
    [createApiProxy] and [server.middlewares.use].
    index.ts: the same, with the call's promise kept in [globalRefresh] and
    cleared by its [finally]. *)
Definition configureServer (b : Build) (opts : NormalizedOptions) : Server :=
  let s0 :=
    {| store := {| jar := JsMap.empty; logged := [] |};
       refreshingPromise := None; proxy := None; pending := []; parked := [];
       started := 0; history := [] |} in
  match callDoHeadlessLogin opts Startup s0 with
  | (s1, p, true) => withProxy (Some None) s1
  | (s1, p, false) =>
      match b with
      | Modular => s1
      | AllInOne => withGate (Some p) s1
      end
  end.

Definition isPending (s : Server) (p : nat) : bool :=
  existsb (fun e => Nat.eqb (fst e) p) (pending s).

(** The body of the [proxyReq] hook after [await gateRefresh()]: the run
    records that the body ran for the request and the header it asked for
    ([cookieHeaderAfter]); whether the request goes out with it is not part
    of the machine, see [sendProxied]. *)
Definition composeCookies (r : ClientRequest) (s : Server) : Server :=
  observe (CookieComposed (reqId r) (cookieHeaderAfter (cookie r) (jar (store s)))) s.

(** The [proxyReq] hook.  [gateRefresh]: [if (refreshingPromise) await refreshingPromise;] *)
Definition onProxyReq (r : ClientRequest) (s : Server) : Server :=
  match proxy s with
  | None => s
  | Some _ =>
      match refreshingPromise s with
      | Some p =>
          if isPending s p then withParked (parked s ++ [(p, r)]) s
          else composeCookies r s
      | None => composeCookies r s
      end
  end.

(** The [proxyRes] hook.  An exception of [storeCookies] leaves the hook. *)
Definition onProxyRes (b : Build) (opts : NormalizedOptions)
  (statusCode : option Z) (headers : IncomingHttpHeaders) (s : Server) : Server :=
  match proxy s with
  | None => s
  | Some activeRefreshPromise =>
      match storeCookiesStmt b (set_cookie headers) (store s) with
      | (st', Js.Abrupt e) => observe (HandlerThrew e) (withStore st' s)
      | (st', Js.Normal) =>
          let s1 := withStore st' s in
          if unauthDetector opts
               (match statusCode with Some n => n | None => 0%Z end) headers
          then
            match activeRefreshPromise with
            | Some _ => s1
            | None =>
                let s2 := withStore (fst (onLog UnauthRefresh (store s1))) s1 in
                match callDoHeadlessLogin opts Refresh s2 with
                | (s3, p, true) => withProxy (Some None) s3
                | (s3, p, false) => withProxy (Some (Some p)) s3
                end
            end
          else s1
      end
  end.

Fixpoint callerOf (l : list (nat * Caller)) (p : nat) : option Caller :=
  match l with
  | [] => None
  | (q, c) :: rest => if Nat.eqb q p then Some c else callerOf rest p
  end.

(** Hooks parked on promise [p] go on, in the order they were parked. *)
Definition resumeParked (p : nat) (s : Server) : Server :=
  let woken := filter (fun e => Nat.eqb (fst e) p) (parked s) in
  let asleep := filter (fun e => negb (Nat.eqb (fst e) p)) (parked s) in
  fold_left (fun acc e => composeCookies (snd e) acc) woken (withParked asleep s).

(** The axios call of [doHeadlessLogin] number [p] ends: the rest of the
    function runs, then the reactions on its promise. *)
Definition onAxiosSettled (b : Build) (p : nat) (o : AxiosOutcome) (s : Server)
  : Server :=
  match callerOf (pending s) p with
  | None => s
  | Some c =>
      let st' := fst (afterAxios b (labelOf c) o (store s)) in
      let s1 :=
        observe (LoginSettled p)
          (withPending (filter (fun e => negb (Nat.eqb (fst e) p)) (pending s))
             (withStore st' s)) in
      let s2 :=
        match c with
        | Refresh => withProxy (Some None) s1
        | Startup =>
            withProxy (Some None)
              (match b with
               | Modular => s1
               | AllInOne => withGate None s1
               end)
        end in
      resumeParked p s2
  end.

Inductive Event : Type :=
| ProxyReq (r : ClientRequest)
| ProxyRes (statusCode : option Z) (headers : IncomingHttpHeaders)
| AxiosSettles (p : nat) (o : AxiosOutcome).

Definition step (b : Build) (opts : NormalizedOptions) (s : Server) (ev : Event)
  : Server :=
  match ev with
  | ProxyReq r => onProxyReq r s
  | ProxyRes statusCode headers => onProxyRes b opts statusCode headers s
  | AxiosSettles p o => onAxiosSettled b p o s
  end.

Definition run (b : Build) (opts : NormalizedOptions) (s : Server)
  (evs : list Event) : Server :=
  fold_left (step b opts) evs s.

(** ** Vocabulary of the statements *)

(** The jar after a sequence of [storeCookies] calls; the jar is shared, so
    what a call stored before throwing stays. *)
Definition mergeAll (b : Build) (jar : CookieJar) (raws : list RawCookies)
  : CookieJar :=
  fold_left (fun j raw => fst (storeCookies b j raw)) raws jar.

(** Number of entries of the jar under a name. *)
Definition entriesNamed (jar : CookieJar) (name : string) : nat :=
  List.length (filter (fun kv => String.eqb (fst kv) name) jar).

(** A cookie name or value that parsing leaves as it is: no [;], no [=],
    no white space at either end. *)
Definition plainToken (s : string) : bool :=
  (Js.indexOf ";" s =? -1)%Z && (Js.indexOf "=" s =? -1)%Z
  && String.eqb (Js.trim s) s.

(** The first [;]-delimited segment of a Set-Cookie line. *)
Definition firstSegment (line : string) : string :=
  match Js.split ";" line with
  | seg :: _ => seg
  | [] => EmptyString
  end.

(** Lines on which the two copies of [storeCookies] do the same: the first
    segment is empty, or starts with [=], or holds exactly one [=]. *)
Definition singleEquals (line : string) : bool :=
  let seg := firstSegment line in
  let idx := Js.indexOf "=" seg in
  match seg with
  | EmptyString => true
  | _ => (idx =? 0)%Z
         || ((idx >? 0)%Z && (Js.indexOf "=" (Js.sliceFrom seg (idx + 1)) =? -1)%Z)
  end.

(** ASCII lower case. *)
Definition asciiLower (c : ascii) : ascii :=
  let n := nat_of_ascii c in
  if ((65 <=? n) && (n <=? 90))%nat then ascii_of_nat (n + 32) else c.

Fixpoint lowerCase (s : string) : string :=
  match s with
  | EmptyString => EmptyString
  | String c rest => String (asciiLower c) (lowerCase rest)
  end.

(** [hay] contains [needle], letter case ignored. *)
Definition containsIgnoringCase (needle hay : string) : Prop :=
  exists before found after : string,
    hay = (before ++ found ++ after)%string /\ lowerCase found = needle.

(** The path matcher in the words of its description. *)
Definition ruleAccepts (pathname : string) (rule : PathRule) : Prop :=
  match rule with
  | RuleString p =>
      exists rest : string,
        pathname = (p ++ rest)%string
        /\ (rest = EmptyString \/ exists rest', rest = String "/" rest')
  | RuleRegExp r => test r pathname = true
  end.

(** Two strings joined with ["; "], an empty one left out. *)
Definition joinSkippingEmpty (a b : string) : string :=
  match a, b with
  | EmptyString, _ => b
  | _, EmptyString => a
  | _, _ => (a ++ "; " ++ b)%string
  end.

(** An event that calls for a refresh: a response that [storeCookies]
    takes without throwing and that the detector classifies as
    unauthenticated. *)
Definition triggersRefresh (b : Build) (opts : NormalizedOptions) (ev : Event)
  : bool :=
  match ev with
  | ProxyRes statusCode headers =>
      match snd (storeCookies b JsMap.empty (set_cookie headers)) with
      | Js.Normal =>
          unauthDetector opts
            (match statusCode with Some n => n | None => 0%Z end) headers
      | Js.Abrupt _ => false
      end
  | _ => false
  end.

Definition isSettle (ev : Event) : bool :=
  match ev with
  | AxiosSettles _ _ => true
  | _ => false
  end.

(** [stripPrefix ic w s]: what is left of [s] after the literal [w], compared
    character by character as the matcher does. *)
Fixpoint stripPrefix (ic : bool) (w s : string) : option string :=
  match w, s with
  | EmptyString, _ => Some s
  | String c w', String d s' =>
      if Regex.sameChar ic c d then stripPrefix ic w' s' else None
  | String _ _, EmptyString => None
  end.

Definition isSome {A : Type} (o : option A) : bool :=
  match o with
  | Some _ => true
  | None => false
  end.

Definition isEmpty (s : string) : bool :=
  match s with
  | EmptyString => true
  | String _ _ => false
  end.

(** All 256 code units. *)
Definition allAscii : list ascii := map ascii_of_nat (seq 0 256).

(** A pattern character that, case ignored, matches exactly the characters
    whose ASCII lower case it is. *)
Definition lowerOnly (c : ascii) : bool :=
  forallb (fun d => Bool.eqb (Regex.sameChar true c d) (Ascii.eqb (asciiLower d) c))
          allAscii.

Fixpoint allChars (p : ascii -> bool) (s : string) : bool :=
  match s with
  | EmptyString => true
  | String c rest => p c && allChars p rest
  end.

(** States the server can be in: those a run of events reaches from
    [configureServer]. *)
Definition Reachable (b : Build) (opts : NormalizedOptions) (s : Server) : Prop :=
  exists evs : list Event, s = run b opts (configureServer b opts) evs.

(** Promise numbers in use are below the number of calls made. *)
Definition numbersInUse (s : Server) : Prop :=
  (forall q c, In (q, c) (pending s) -> q < started s)
  /\ (forall q, In (LoginSettled q) (history s) -> q < started s).

(** No request had its cookies composed before the startup login settled. *)
Definition composedAfterStartup (h : list Obs) : Prop :=
  forall h1 h2 rid v,
    h = h1 ++ CookieComposed rid v :: h2 -> In (LoginSettled 0) h1.

(** What holds of the gate in every reachable state.  While the middleware
    is not installed, the startup login is the one pending call and no
    cookies were composed; the gate variable is set only by index.ts.  Once
    the middleware is installed, the startup login has settled and the gate
    variable is empty.  No hook is ever parked. *)
Definition gateInvariant (b : Build) (s : Server) : Prop :=
  composedAfterStartup (history s)
  /\ parked s = []
  /\ match proxy s with
     | None =>
         pending s = [(0, Startup)]
         /\ (b = Modular -> refreshingPromise s = None)
         /\ (forall rid v, ~ In (CookieComposed rid v) (history s))
     | Some _ => In (LoginSettled 0) (history s) /\ refreshingPromise s = None
     end.

Definition invariant (b : Build) (s : Server) : Prop :=
  numbersInUse s /\ gateInvariant b s.

(** No call of [doHeadlessLogin] was made or has settled between [s] and
    [s']. *)
Definition sameCalls (s s' : Server) : Prop :=
  started s' = started s
  /\ pending s' = pending s
  /\ (forall q, In (LoginSettled q) (history s') -> In (LoginSettled q) (history s)).

Definition noSettle (evs : list Event) : bool :=
  forallb (fun ev => negb (isSettle ev)) evs.

(** Number of events of a burst that call for a refresh. *)
Definition triggerCount (b : Build) (opts : NormalizedOptions)
  (evs : list Event) : nat :=
  List.length (filter (triggersRefresh b opts) evs).

(** The triggers of a burst are concurrent: each one after the first
    arrives while the call that the first one made is still pending. *)
Definition concurrentTriggers (b : Build) (opts : NormalizedOptions)
  (s : Server) (evs : list Event) : Prop :=
  forall evs1 ev evs2,
    evs = evs1 ++ ev :: evs2 ->
    existsb (triggersRefresh b opts) evs1 = true ->
    triggersRefresh b opts ev = true ->
    isPending (run b opts s evs1) (started s) = true.

(** The names carried by a Cookie header value. *)
Definition cookieNames (header : string) : list string :=
  map (fun part => hd EmptyString (Js.split "=" (Js.trim part)))
      (Js.split ";" header).

(** Fixtures: headless login switched on, everything else left to its
    default; an axios response carrying the given Set-Cookie lines. *)
Definition loginOn : NormalizedOptions :=
  normalizeOptions
    {| opt_apiPaths := None;
       opt_headlessLogin := Some (Some (axiosRequestConfig []));
       opt_unauthDetector := None |}.

Definition withSetCookie (lines : list string) : IncomingHttpHeaders :=
  {| location := None; set_cookie := RawArray lines |}.

Definition emptyStore : Store := {| jar := JsMap.empty; logged := [] |}.

(** ** iframeScript.ts: the address of the hidden iframe *)

Module IframeScript.

(** [s.includes(c)] for a one-character needle. *)
Definition includes (s : string) (c : ascii) : bool :=
  negb (Js.indexOf c s =? -1)%Z.

(** [const paramGlue = validateUrl.includes("?") ? "&" : "?";]
    (index.ts: [glue]). *)
Definition paramGlue (validateUrl : string) : string :=
  if includes validateUrl "?" then "&" else "?".

(** [`${validateUrl}${iframeParam ? paramGlue + iframeParam : ""}`]
    (index.ts: [src]). *)
Definition iframeSrc (validateUrl iframeParam : string) : string :=
  (validateUrl
   ++ (if Js.truthy (Some iframeParam)
       then paramGlue validateUrl ++ iframeParam
       else ""))%string.

End IframeScript.

(** ** options.ts and index.ts: the remaining defaults of [normalizeOptions] *)

(** [string | boolean | Record<string, string>]. *)
Inductive CookieDomainRewrite : Type :=
| RewriteTo (domain : string)
| RewriteFlag (flag : bool)
| RewriteMap (table : list (string * string)).

(** The options that [normalizeOptions] defaults without looking at
    anything else.  A field left out is [None]. *)
Record PlainOptions : Type := {
  opt_insecureTLS : option bool;
  opt_ws : option bool;
  opt_iframeParam : option string;
  opt_authCookieName : option string;
  opt_ssoCompleteMessage : option string;
  opt_cookieDomainRewrite : option CookieDomainRewrite   (* index.ts only *)
}.

Record NormalizedPlainOptions : Type := {
  insecureTLS : bool;
  ws : bool;
  iframeParam : string;
  authCookieName : string;
  ssoCompleteMessage : string;
  cookieDomainRewrite : option CookieDomainRewrite       (* [None]: no such field *)
}.

(** [x || d] on [string | undefined]. *)
Definition orElse (x : option string) (d : string) : string :=
  match x with
  | Some s => if Js.truthy x then s else d
  | None => d
  end.

(** [x ?? d] and [x === undefined ? d : x]. *)
Definition coalesce {A : Type} (x : option A) (d : A) : A :=
  match x with
  | Some v => v
  | None => d
  end.

(** options.ts writes [opts.insecureTLS || false], [opts.ws || false],
    [opts.iframeParam === undefined ? "silent=true" : opts.iframeParam],
    [opts.authCookieName || "myToken"],
    [opts.ssoCompleteMessage || "myToken-set"].
    index.ts writes [??] throughout and adds
    [cookieDomainRewrite]: ["localhost"] when left out, [false] for [true]. *)
Definition normalizePlainOptions (b : Build) (opts : PlainOptions)
  : NormalizedPlainOptions :=
  match b with
  | Modular =>
      {| insecureTLS := coalesce (opt_insecureTLS opts) false;
         ws := coalesce (opt_ws opts) false;
         iframeParam := coalesce (opt_iframeParam opts) "silent=true";
         authCookieName := orElse (opt_authCookieName opts) "myToken";
         ssoCompleteMessage := orElse (opt_ssoCompleteMessage opts) "myToken-set";
         cookieDomainRewrite := None |}
  | AllInOne =>
      {| insecureTLS := coalesce (opt_insecureTLS opts) false;
         ws := coalesce (opt_ws opts) false;
         iframeParam := coalesce (opt_iframeParam opts) "silent=true";
         authCookieName := coalesce (opt_authCookieName opts) "myToken";
         ssoCompleteMessage := coalesce (opt_ssoCompleteMessage opts) "myToken-set";
         cookieDomainRewrite :=
           Some (match coalesce (opt_cookieDomainRewrite opts) (RewriteTo "localhost") with
                 | RewriteFlag true => RewriteFlag false
                 | other => other
                 end) |}
  end.

(** ** proxyHandler.ts and index.ts: the [error] hook *)





(** ** Vocabulary of the further statements *)

(** A line that both copies of [storeCookies] pass over: its first segment
    is empty or begins with [=]. *)
Definition skippedLine (line : string) : bool :=
  let seg := firstSegment line in
  isEmpty seg || (Js.indexOf "=" seg =? 0)%Z.

(** A line on which cookieUtils.ts throws: its first segment is not empty
    and holds no [=]. *)
Definition bareSegment (line : string) : bool :=
  let seg := firstSegment line in
  negb (isEmpty seg) && (Js.indexOf "=" seg =? -1)%Z.

(** [x] occurs in [s]. *)
Definition occursIn (x s : string) : Prop :=
  exists before after : string, s = (before ++ x ++ after)%string.

(** A jar whose names are not empty and whose names and values parsing
    leaves as they are. *)
Definition plainJar (jar : CookieJar) : bool :=
  forallb (fun kv => plainToken (fst kv) && negb (isEmpty (fst kv))
                     && plainToken (snd kv)) jar.

(** One call of [doHeadlessLogin] at a time: the startup call until the
    middleware is installed, then none, or the one refresh the slot names. *)
Definition oneCallInFlight (s : Server) : Prop :=
  match proxy s with
  | None => pending s = [(0, Startup)]
  | Some None => pending s = []
  | Some (Some p) => pending s = [(p, Refresh)]
  end.

Definition isLoginStarted (o : Obs) : bool :=
  match o with
  | LoginStarted _ _ => true
  | _ => false
  end.

Definition isLoginSettled (o : Obs) : bool :=
  match o with
  | LoginSettled _ => true
  | _ => false
  end.

Definition isHandlerThrew (o : Obs) : bool :=
  match o with
  | HandlerThrew _ => true
  | _ => false
  end.

Definition countObs (f : Obs -> bool) (h : list Obs) : nat :=
  List.length (filter f h).

(** The history accounts for every call of [doHeadlessLogin]: each call made
    was observed starting, and each has either settled or is pending. *)
Definition accounted (s : Server) : Prop :=
  countObs isLoginStarted (history s) = started s
  /\ countObs isLoginSettled (history s) + List.length (pending s) = started s.

(** * Properties *)

(** ** Strings *)

Lemma append_assoc (a b c : string) :
  ((a ++ b) ++ c)%string = (a ++ (b ++ c))%string.
Proof. induction a as [|x a IH]; simpl; [reflexivity | now rewrite IH]. Qed.

Lemma length_append (a b : string) :
  String.length (a ++ b) = String.length a + String.length b.
Proof. induction a as [|x a IH]; simpl; [reflexivity | now rewrite IH]. Qed.

Lemma split_not_nil (sep : ascii) (s : string) : Js.split sep s <> [].
Proof.
  destruct s as [|c s]; simpl; [discriminate|].
  destruct (Ascii.eqb c sep); [discriminate|].
  destruct (Js.split sep s); discriminate.
Qed.

Lemma indexOf_lower_bound (c : ascii) (s : string) : (-1 <= Js.indexOf c s)%Z.
Proof.
  induction s as [|d s IH]; simpl; [lia|].
  destruct (Ascii.eqb d c); [lia|].
  destruct (Js.indexOf c s <? 0)%Z eqn:E; lia.
Qed.

(** Without the separator, [split] returns the string whole. *)
Lemma split_absent (c : ascii) (s : string) :
  Js.indexOf c s = (-1)%Z -> Js.split c s = [s].
Proof.
  induction s as [|d s IH]; simpl; [reflexivity|].
  destruct (Ascii.eqb d c); [discriminate|].
  destruct (Js.indexOf c s <? 0)%Z eqn:E; intros H.
  - pose proof (indexOf_lower_bound c s). apply Z.ltb_lt in E.
    rewrite IH by lia. reflexivity.
  - pose proof (indexOf_lower_bound c s). apply Z.ltb_ge in E. lia.
Qed.

(** [split] cuts at the first separator. *)
Lemma split_at_first (c : ascii) (a b : string) :
  Js.indexOf c a = (-1)%Z ->
  Js.split c (a ++ String c b) = a :: Js.split c b.
Proof.
  induction a as [|d a IH]; simpl.
  - intros _. now rewrite Ascii.eqb_refl.
  - destruct (Ascii.eqb d c); [discriminate|].
    destruct (Js.indexOf c a <? 0)%Z eqn:E; intros H.
    + pose proof (indexOf_lower_bound c a). apply Z.ltb_lt in E.
      rewrite IH by lia. reflexivity.
    + pose proof (indexOf_lower_bound c a). apply Z.ltb_ge in E. lia.
Qed.

Lemma indexOf_at_first (c : ascii) (a b : string) :
  Js.indexOf c a = (-1)%Z ->
  Js.indexOf c (a ++ String c b) = Z.of_nat (String.length a).
Proof.
  induction a as [|d a IH]; simpl Js.indexOf; simpl String.length.
  - intros _. now rewrite Ascii.eqb_refl.
  - destruct (Ascii.eqb d c); [discriminate|].
    destruct (Js.indexOf c a <? 0)%Z eqn:E; intros H.
    + pose proof (indexOf_lower_bound c a). apply Z.ltb_lt in E.
      rewrite IH by lia.
      destruct (Z.of_nat (String.length a) <? 0)%Z eqn:E'; [apply Z.ltb_lt in E'|]; lia.
    + pose proof (indexOf_lower_bound c a). apply Z.ltb_ge in E. lia.
Qed.

(** A found separator splits the string into what is before and after. *)
Lemma indexOf_found (c : ascii) (s : string) :
  (0 <= Js.indexOf c s)%Z ->
  exists a b : string,
    s = (a ++ String c b)%string /\ Js.indexOf c a = (-1)%Z.
Proof.
  induction s as [|d s IH]; simpl; [lia|].
  destruct (Ascii.eqb d c) eqn:Edc.
  - intros _. apply Ascii.eqb_eq in Edc. subst d.
    exists EmptyString, s. split; reflexivity.
  - destruct (Js.indexOf c s <? 0)%Z eqn:E; [lia|].
    intros _. apply Z.ltb_ge in E. destruct (IH E) as (a & b & -> & Ha).
    exists (String d a), b. split; [reflexivity|].
    simpl. rewrite Edc, Ha. reflexivity.
Qed.

Lemma substring_whole (s : string) : substring 0 (String.length s) s = s.
Proof. induction s as [|c s IH]; simpl; [reflexivity | now rewrite IH]. Qed.

Lemma substring_prefix (a x : string) :
  substring 0 (String.length a) (a ++ x) = a.
Proof.
  induction a as [|c a IH]; simpl.
  - destruct x; reflexivity.
  - now rewrite IH.
Qed.

Lemma substring_skip (a x : string) (n m : nat) :
  substring (String.length a + n) m (a ++ x) = substring n m x.
Proof. induction a as [|c a IH]; simpl; [reflexivity | apply IH]. Qed.

(** [pair.slice(0, idx)] and [pair.slice(idx + 1)] around a separator. *)
Lemma slice_before (a b : string) (c : ascii) :
  Js.slice (a ++ String c b) 0 (Z.of_nat (String.length a)) = a.
Proof.
  unfold Js.slice, Js.relIndex. rewrite length_append. simpl String.length.
  replace (0 <? 0)%Z with false by reflexivity.
  destruct (Z.of_nat (String.length a) <? 0)%Z eqn:E; [apply Z.ltb_lt in E; lia|].
  rewrite Z.min_l by lia. rewrite Z.min_l by lia.
  replace (Z.to_nat 0) with 0 by reflexivity.
  replace (Z.to_nat (Z.max (Z.of_nat (String.length a) - 0) 0))
    with (String.length a) by lia.
  apply substring_prefix.
Qed.

Lemma sliceFrom_after (a b : string) (c : ascii) :
  Js.sliceFrom (a ++ String c b) (Z.of_nat (String.length a) + 1) = b.
Proof.
  unfold Js.sliceFrom, Js.slice, Js.relIndex. rewrite length_append.
  simpl String.length.
  destruct (Z.of_nat (String.length a) + 1 <? 0)%Z eqn:E;
    [apply Z.ltb_lt in E; lia|].
  destruct (Z.of_nat (String.length a + S (String.length b)) <? 0)%Z eqn:E';
    [apply Z.ltb_lt in E'; lia|].
  rewrite Z.min_l by lia. rewrite Z.min_l by lia.
  replace (Z.to_nat (Z.of_nat (String.length a) + 1))
    with (String.length a + 1) by lia.
  replace (Z.to_nat (Z.max (Z.of_nat (String.length a + S (String.length b))
                            - (Z.of_nat (String.length a) + 1)) 0))
    with (String.length b) by lia.
  rewrite substring_skip. simpl. apply substring_whole.
Qed.

Lemma firstSegment_nth (line : string) :
  nth_error (Js.split ";" line) 0 = Some (firstSegment line).
Proof.
  unfold firstSegment. pose proof (split_not_nil ";" line).
  destruct (Js.split ";" line); [congruence | reflexivity].
Qed.

(** ** The jar as a map *)

Lemma get_set_same (jar : CookieJar) (k v : string) :
  JsMap.get (JsMap.set jar k v) k = Some v.
Proof.
  induction jar as [|[k' v'] jar IH]; simpl.
  - now rewrite String.eqb_refl.
  - destruct (String.eqb k' k) eqn:E; simpl.
    + now rewrite String.eqb_refl.
    + now rewrite E.
Qed.

Lemma get_set_other (jar : CookieJar) (k k' v : string) :
  k <> k' -> JsMap.get (JsMap.set jar k v) k' = JsMap.get jar k'.
Proof.
  intros Hne. induction jar as [|[k0 v0] jar IH]; simpl.
  - apply String.eqb_neq in Hne. now rewrite Hne.
  - destruct (String.eqb k0 k) eqn:E; simpl.
    + apply String.eqb_eq in E. subst k0.
      apply String.eqb_neq in Hne. now rewrite Hne.
    + destruct (String.eqb k0 k'); [reflexivity | exact IH].
Qed.

(** The later [set] on a name wins, and leaves one entry where there was one. *)
Lemma set_set (jar : CookieJar) (k v1 v2 : string) :
  JsMap.set (JsMap.set jar k v1) k v2 = JsMap.set jar k v2.
Proof.
  induction jar as [|[k' v'] jar IH]; simpl.
  - now rewrite String.eqb_refl.
  - destruct (String.eqb k' k) eqn:E; simpl.
    + now rewrite String.eqb_refl.
    + now rewrite E, IH.
Qed.

Lemma keys_set_in (jar : CookieJar) (k v : string) :
  In k (JsMap.keys jar) -> JsMap.keys (JsMap.set jar k v) = JsMap.keys jar.
Proof.
  unfold JsMap.keys. induction jar as [|[k' v'] jar IH]; simpl; [tauto|].
  intros H. destruct (String.eqb k' k) eqn:E; simpl.
  - apply String.eqb_eq in E. now subst.
  - f_equal. apply IH. destruct H as [H|H]; [|exact H].
    subst k'. now rewrite String.eqb_refl in E.
Qed.

Lemma keys_set_new (jar : CookieJar) (k v : string) :
  ~ In k (JsMap.keys jar) -> JsMap.keys (JsMap.set jar k v) = JsMap.keys jar ++ [k].
Proof.
  unfold JsMap.keys. induction jar as [|[k' v'] jar IH]; simpl; [reflexivity|].
  intros H. destruct (String.eqb k' k) eqn:E; simpl.
  - apply String.eqb_eq in E. subst. tauto.
  - f_equal. apply IH. tauto.
Qed.

(** [set] keeps the names of the jar distinct. *)
Lemma set_keeps_names_distinct (jar : CookieJar) (k v : string) :
  NoDup (JsMap.keys jar) -> NoDup (JsMap.keys (JsMap.set jar k v)).
Proof.
  intros Hnd. destruct (in_dec string_dec k (JsMap.keys jar)) as [Hin|Hout].
  - now rewrite keys_set_in.
  - rewrite keys_set_new by exact Hout.
    apply NoDup_app.
    + exact Hnd.
    + constructor; [intros [] | constructor].
    + intros x Hx [<-|[]]. exact (Hout Hx).
Qed.

Lemma entriesNamed_absent (jar : CookieJar) (k : string) :
  ~ In k (JsMap.keys jar) -> entriesNamed jar k = 0.
Proof.
  unfold entriesNamed, JsMap.keys.
  induction jar as [|[k' v'] jar IH]; simpl; [reflexivity|].
  intros H. destruct (String.eqb k' k) eqn:E.
  - apply String.eqb_eq in E. subst. tauto.
  - apply IH. tauto.
Qed.

Lemma entriesNamed_set (jar : CookieJar) (k v : string) :
  NoDup (JsMap.keys jar) -> entriesNamed (JsMap.set jar k v) k = 1.
Proof.
  unfold JsMap.keys.
  induction jar as [|[k' v'] jar IH]; simpl; intros Hnd.
  - unfold entriesNamed. simpl. now rewrite String.eqb_refl.
  - inversion Hnd as [|? ? Hout Hnd']; subst.
    destruct (String.eqb k' k) eqn:E.
    + apply String.eqb_eq in E. subst k'.
      unfold entriesNamed. simpl. rewrite String.eqb_refl. simpl.
      f_equal. apply (entriesNamed_absent jar k Hout).
    + unfold entriesNamed. simpl. rewrite E. apply (IH Hnd').
Qed.

(** ** One Set-Cookie line *)

(** cookieUtils.ts, first segment without [=]: an empty segment is skipped,
    any other one throws at [value.trim()]. *)
Lemma utils_storeLine_without_equals (jar : CookieJar) (line : string) :
  Js.indexOf "=" (firstSegment line) = (-1)%Z ->
  CookieUtils.storeLine jar line =
    if Js.truthy (Some (firstSegment line))
    then (jar, Js.Abrupt Js.trimOfUndefined)
    else (jar, Js.Normal).
Proof.
  intros H. unfold CookieUtils.storeLine.
  rewrite firstSegment_nth, (split_absent _ _ H). simpl nth_error.
  destruct (Js.truthy (Some (firstSegment line))); reflexivity.
Qed.

(** cookieUtils.ts, first segment [a=b...]: the value ends at the next [=]. *)
Lemma utils_storeLine_with_equals (jar : CookieJar) (line a b : string) :
  firstSegment line = (a ++ String "=" b)%string ->
  Js.indexOf "=" a = (-1)%Z ->
  CookieUtils.storeLine jar line =
    if Js.truthy (Some a)
    then (JsMap.set jar (Js.trim a) (Js.trim (hd EmptyString (Js.split "=" b))),
          Js.Normal)
    else (jar, Js.Normal).
Proof.
  intros Hseg Ha. unfold CookieUtils.storeLine.
  rewrite firstSegment_nth, Hseg, (split_at_first _ _ _ Ha). simpl nth_error.
  pose proof (split_not_nil "=" b) as Hne.
  destruct (Js.split "=" b) as [|v rest]; [congruence|]. simpl.
  destruct a; reflexivity.
Qed.

(** index.ts, first segment without [=]: skipped. *)
Lemma index_storeLine_without_equals (jar : CookieJar) (line : string) :
  Js.indexOf "=" (firstSegment line) = (-1)%Z ->
  Index.storeLine jar line = (jar, Js.Normal).
Proof.
  intros H. unfold Index.storeLine. rewrite firstSegment_nth, H. reflexivity.
Qed.

(** index.ts, first segment [a=b...]: the value is all that follows the
    first [=]. *)
Lemma index_storeLine_with_equals (jar : CookieJar) (line a b : string) :
  firstSegment line = (a ++ String "=" b)%string ->
  Js.indexOf "=" a = (-1)%Z ->
  Index.storeLine jar line =
    if Js.truthy (Some a)
    then (JsMap.set jar (Js.trim a) (Js.trim b), Js.Normal)
    else (jar, Js.Normal).
Proof.
  intros Hseg Ha. unfold Index.storeLine.
  rewrite firstSegment_nth, Hseg, (indexOf_at_first _ _ _ Ha).
  destruct a as [|c a].
  - reflexivity.
  - replace (Z.of_nat (String.length (String c a)) >? 0)%Z with true
      by (symmetry; apply Z.gtb_lt; simpl String.length; lia).
    rewrite slice_before, sliceFrom_after. reflexivity.
Qed.

(** The loop of index.ts never throws. *)
Lemma index_storeLine_completes (jar : CookieJar) (line : string) :
  snd (Index.storeLine jar line) = Js.Normal.
Proof.
  unfold Index.storeLine. rewrite firstSegment_nth.
  destruct (Js.indexOf "=" (firstSegment line) >? 0)%Z; reflexivity.
Qed.

Lemma index_forOfLines_completes (lines : list string) (jar : CookieJar) :
  snd (Index.forOfLines jar lines) = Js.Normal.
Proof.
  revert jar. induction lines as [|line lines IH]; intros jar; simpl.
  - reflexivity.
  - pose proof (index_storeLine_completes jar line) as H.
    destruct (Index.storeLine jar line) as [jar' [|e]]; simpl in H.
    + apply IH.
    + discriminate.
Qed.

Lemma index_storeCookies_completes (jar : CookieJar) (raw : RawCookies) :
  snd (Index.storeCookies jar raw) = Js.Normal.
Proof.
  unfold Index.storeCookies. destruct (linesOf raw).
  - apply index_forOfLines_completes.
  - reflexivity.
Qed.

(** Either copy leaves the jar as it is or performs one [set]. *)
Lemma storeLine_sets_or_skips (b : Build) (jar : CookieJar) (line : string) :
  let step := match b with
              | Modular => CookieUtils.storeLine
              | AllInOne => Index.storeLine
              end in
  fst (step jar line) = jar
  \/ exists k v, fst (step jar line) = JsMap.set jar k v.
Proof.
  destruct b; simpl.
  - unfold CookieUtils.storeLine. rewrite firstSegment_nth.
    destruct (nth_error (Js.split "=" (firstSegment line)) 0) as [n|]; [|now left].
    destruct (Js.truthy (Some n)); [|now left].
    destruct (nth_error (Js.split "=" (firstSegment line)) 1) as [v|]; [|now left].
    right. exists (Js.trim n), (Js.trim v). reflexivity.
  - unfold Index.storeLine. rewrite firstSegment_nth.
    destruct (Js.indexOf "=" (firstSegment line) >? 0)%Z; [|now left].
    right. eexists _, _. reflexivity.
Qed.

Lemma storeCookies_keeps_names_distinct (b : Build) (jar : CookieJar)
  (raw : RawCookies) :
  NoDup (JsMap.keys jar) -> NoDup (JsMap.keys (fst (storeCookies b jar raw))).
Proof.
  assert (Hlines : forall lines j,
             NoDup (JsMap.keys j) ->
             NoDup (JsMap.keys (fst (CookieUtils.forEachLine j lines)))
             /\ NoDup (JsMap.keys (fst (Index.forOfLines j lines)))).
  { induction lines as [|line lines IH]; intros j Hj; simpl; [now split|].
    split.
    - pose proof (storeLine_sets_or_skips Modular j line) as H. simpl in H.
      destruct (CookieUtils.storeLine j line) as [j' [|e]]; simpl in H.
      + apply IH. destruct H as [->|(k & v & ->)];
          [exact Hj | now apply set_keeps_names_distinct].
      + simpl. destruct H as [->|(k & v & ->)];
          [exact Hj | now apply set_keeps_names_distinct].
    - pose proof (storeLine_sets_or_skips AllInOne j line) as H. simpl in H.
      destruct (Index.storeLine j line) as [j' [|e]]; simpl in H.
      + apply IH. destruct H as [->|(k & v & ->)];
          [exact Hj | now apply set_keeps_names_distinct].
      + simpl. destruct H as [->|(k & v & ->)];
          [exact Hj | now apply set_keeps_names_distinct]. }
  intros Hj. destruct b; simpl.
  - unfold CookieUtils.storeCookies. destruct (linesOf raw); [|exact Hj].
    now apply Hlines.
  - unfold Index.storeCookies. destruct (linesOf raw); [|exact Hj].
    now apply Hlines.
Qed.

(** Every jar the program can hold: built from [new Map()] by calls of
    [storeCookies], whether they return or throw. *)
Lemma mergeAll_names_distinct (b : Build) (raws : list RawCookies)
  (jar : CookieJar) :
  NoDup (JsMap.keys jar) -> NoDup (JsMap.keys (mergeAll b jar raws)).
Proof.
  revert jar. unfold mergeAll.
  induction raws as [|raw raws IH]; intros jar Hj; simpl; [exact Hj|].
  apply IH. now apply storeCookies_keeps_names_distinct.
Qed.

Lemma indexOf_append_absent (c : ascii) (a b : string) :
  Js.indexOf c a = (-1)%Z -> Js.indexOf c b = (-1)%Z ->
  Js.indexOf c (a ++ b) = (-1)%Z.
Proof.
  intros Ha Hb. induction a as [|d a IH]; simpl in *; [exact Hb|].
  destruct (Ascii.eqb d c); [discriminate|].
  pose proof (indexOf_lower_bound c a).
  destruct (Js.indexOf c a <? 0)%Z eqn:E.
  - apply Z.ltb_lt in E. rewrite IH by lia. reflexivity.
  - apply Z.ltb_ge in E. lia.
Qed.

Lemma plainToken_unfold (s : string) :
  plainToken s = true ->
  Js.indexOf ";" s = (-1)%Z /\ Js.indexOf "=" s = (-1)%Z /\ Js.trim s = s.
Proof.
  unfold plainToken. intros H.
  apply andb_prop in H as [H H3]. apply andb_prop in H as [H1 H2].
  apply Z.eqb_eq in H1, H2. apply String.eqb_eq in H3. auto.
Qed.

(** A well-formed [name=value] line is stored as it reads, by either copy. *)
Lemma storeCookies_plain_pair (b : Build) (jar : CookieJar) (name v : string) :
  plainToken name = true -> name <> EmptyString -> plainToken v = true ->
  storeCookies b jar (RawString (name ++ "=" ++ v)) =
    (JsMap.set jar name v, Js.Normal).
Proof.
  intros Hn Hne Hv.
  apply plainToken_unfold in Hn as (Hn1 & Hn2 & Hn3).
  apply plainToken_unfold in Hv as (Hv1 & Hv2 & Hv3).
  assert (Hseg : firstSegment (name ++ "=" ++ v) = (name ++ String "=" v)%string).
  { unfold firstSegment. rewrite split_absent; [reflexivity|].
    apply indexOf_append_absent; [exact Hn1|].
    simpl. rewrite Hv1. reflexivity. }
  assert (Htruthy : Js.truthy (Some name) = true)
    by (destruct name; [congruence | reflexivity]).
  assert (Hlines : linesOf (RawString (name ++ "=" ++ v))
                   = Some [(name ++ "=" ++ v)%string])
    by (destruct name; [congruence | reflexivity]).
  destruct b; unfold storeCookies.
  - unfold CookieUtils.storeCookies. rewrite Hlines.
    unfold CookieUtils.forEachLine.
    rewrite (utils_storeLine_with_equals jar _ name v Hseg Hn2), Htruthy.
    rewrite (split_absent _ _ Hv2). simpl hd. now rewrite Hn3, Hv3.
  - unfold Index.storeCookies. rewrite Hlines.
    unfold Index.forOfLines.
    rewrite (index_storeLine_with_equals jar _ name v Hseg Hn2), Htruthy.
    now rewrite Hn3, Hv3.
Qed.

(** ** Merging Set-Cookie lines *)

(** C3.  A Set-Cookie entry without [=] is to be skipped without an
    exception, and the entries after it are still to be merged.  index.ts
    does so.  cookieUtils.ts does not: on ["bad-entry-no-equals"] the
    destructured [value] is [undefined], [value.trim()] throws a TypeError,
    the loop is left and ["a=1"] is never stored. *)
Theorem C3_malformed_entry_throws_in_cookieUtils :
  CookieUtils.storeCookies JsMap.empty (RawArray ["bad-entry-no-equals"; "a=1"])
    = (JsMap.empty, Js.Abrupt Js.trimOfUndefined)
  /\ Index.storeCookies JsMap.empty (RawArray ["bad-entry-no-equals"; "a=1"])
    = ([("a", "1")], Js.Normal).
Proof. split; reflexivity. Qed.

(** The behaviour C3 asks for, as index.ts has it: an entry whose first
    segment holds no [=] changes nothing and the merge goes on. *)
Lemma index_storeCookies_skips_malformed (jar : CookieJar) (line : string)
  (before after : list string) :
  Js.indexOf "=" (firstSegment line) = (-1)%Z ->
  Index.storeCookies jar (RawArray (before ++ line :: after))
    = Index.storeCookies jar (RawArray (before ++ after)).
Proof.
  intros H. unfold Index.storeCookies. simpl.
  revert jar. induction before as [|l before IH]; intros jar; simpl.
  - now rewrite (index_storeLine_without_equals jar line H).
  - pose proof (index_storeLine_completes jar l) as Hc.
    destruct (Index.storeLine jar l) as [jar' [|e]]; simpl in Hc;
      [apply IH | discriminate].
Qed.

(** What cookieUtils.ts does instead: a non-empty first segment without
    [=] ends the merge with a TypeError; the entries after it are lost. *)
Lemma utils_storeCookies_aborts_on_malformed (jar : CookieJar) (line : string)
  (after : list string) :
  Js.indexOf "=" (firstSegment line) = (-1)%Z ->
  firstSegment line <> EmptyString ->
  CookieUtils.storeCookies jar (RawArray (line :: after))
    = (jar, Js.Abrupt Js.trimOfUndefined).
Proof.
  intros H Hne. unfold CookieUtils.storeCookies. simpl.
  rewrite (utils_storeLine_without_equals jar line H).
  destruct (firstSegment line); [congruence | reflexivity].
Qed.

(** C4.  Merging is last-write-wins per name, in both copies: [a=1] merged
    twice leaves the single entry [a -> 1]; [a=1] then [a=2] leaves the
    single entry [a -> 2]; every jar built from the empty one by merges holds
    each name once; and for any such jar and any well-formed name and
    values, a repeated merge changes nothing and a later merge replaces the
    value, leaving exactly one entry under the name. *)
Theorem C4_merge_last_write_wins (b : Build) :
  mergeAll b JsMap.empty [RawString "a=1"; RawString "a=1"] = [("a", "1")]
  /\ mergeAll b JsMap.empty [RawString "a=1"; RawString "a=2"] = [("a", "2")]
  /\ (forall raws : list RawCookies,
        NoDup (JsMap.keys (mergeAll b JsMap.empty raws)))
  /\ (forall (raws : list RawCookies) (name v1 v2 : string),
        plainToken name = true -> name <> EmptyString ->
        plainToken v1 = true -> plainToken v2 = true ->
        let jar := mergeAll b JsMap.empty raws in
        let once := mergeAll b jar [RawString (name ++ "=" ++ v1)] in
        let again := mergeAll b once [RawString (name ++ "=" ++ v1)] in
        let over := mergeAll b once [RawString (name ++ "=" ++ v2)] in
        again = once
        /\ JsMap.get once name = Some v1
        /\ JsMap.get over name = Some v2
        /\ entriesNamed over name = 1).
Proof.
  split; [destruct b; reflexivity|].
  split; [destruct b; reflexivity|].
  assert (Hreach : forall raws, NoDup (JsMap.keys (mergeAll b JsMap.empty raws))).
  { intros raws. apply mergeAll_names_distinct. constructor. }
  split; [exact Hreach|].
  intros raws name v1 v2 Hn Hne Hv1 Hv2 jar once again over.
  assert (Hone : forall j v, plainToken v = true ->
             mergeAll b j [RawString (name ++ "=" ++ v)] = JsMap.set j name v).
  { intros j v Hv. unfold mergeAll, fold_left.
    now rewrite storeCookies_plain_pair. }
  subst again over once. rewrite !Hone by assumption. rewrite !set_set.
  repeat split.
  - apply get_set_same.
  - apply get_set_same.
  - apply entriesNamed_set, Hreach.
Qed.

(** A jar, a name and two values that meet the premises of the last part of
    C4. *)
Lemma C4_merge_last_write_wins_witness :
  let jar := mergeAll Modular JsMap.empty [RawString "theme=dark"] in
  let once := mergeAll Modular jar [RawString ("sid" ++ "=" ++ "1")] in
  let again := mergeAll Modular once [RawString ("sid" ++ "=" ++ "1")] in
  let over := mergeAll Modular once [RawString ("sid" ++ "=" ++ "2")] in
  again = once
  /\ JsMap.get once "sid" = Some "1"
  /\ JsMap.get over "sid" = Some "2"
  /\ entriesNamed over "sid" = 1.
Proof.
  apply (proj2 (proj2 (proj2 (C4_merge_last_write_wins Modular)))
           [RawString "theme=dark"] "sid" "1" "2");
    [reflexivity | discriminate | reflexivity | reflexivity].
Defined.

(** C10.  The two copies of [storeCookies] are not interchangeable.  A value
    that itself holds [=] is cut at its first [=] by cookieUtils.ts
    ([nv.split("=")] keeps only the second piece) and kept whole by index.ts;
    an entry without [=] throws in cookieUtils.ts and is skipped in index.ts. *)
Theorem C10_storeCookies_copies_differ :
  CookieUtils.storeCookies JsMap.empty (RawString "token=abc==; Path=/")
    = ([("token", "abc")], Js.Normal)
  /\ Index.storeCookies JsMap.empty (RawString "token=abc==; Path=/")
    = ([("token", "abc==")], Js.Normal)
  /\ CookieUtils.storeCookies JsMap.empty (RawArray ["HttpOnly"; "a=1"])
    = (JsMap.empty, Js.Abrupt Js.trimOfUndefined)
  /\ Index.storeCookies JsMap.empty (RawArray ["HttpOnly"; "a=1"])
    = ([("a", "1")], Js.Normal).
Proof. repeat split. Qed.

(** Where the copies do agree: on lines whose first segment is empty,
    starts with [=], or holds exactly one [=]. *)
Lemma storeLine_copies_agree (jar : CookieJar) (line : string) :
  singleEquals line = true ->
  CookieUtils.storeLine jar line = Index.storeLine jar line.
Proof.
  unfold singleEquals. intros H.
  destruct (Z.eq_dec (Js.indexOf "=" (firstSegment line)) (-1)) as [Hno|Hyes].
  - rewrite (utils_storeLine_without_equals jar line Hno),
            (index_storeLine_without_equals jar line Hno).
    destruct (firstSegment line) as [|c seg]; [reflexivity|].
    rewrite Hno in H. discriminate.
  - pose proof (indexOf_lower_bound "=" (firstSegment line)) as Hlb.
    destruct (indexOf_found "=" (firstSegment line)) as (a & rest & Hseg & Ha);
      [lia|].
    rewrite (utils_storeLine_with_equals jar line a rest Hseg Ha),
            (index_storeLine_with_equals jar line a rest Hseg Ha).
    destruct a as [|c a]; [reflexivity|]. simpl Js.truthy. cbv iota.
    rewrite Hseg in H. rewrite (indexOf_at_first _ _ _ Ha) in H.
    rewrite sliceFrom_after in H. simpl append in H.
    replace (Z.of_nat (String.length (String c a)) =? 0)%Z with false in H
      by (symmetry; apply Z.eqb_neq; simpl String.length; lia).
    replace (Z.of_nat (String.length (String c a)) >? 0)%Z with true in H
      by (symmetry; apply Z.gtb_lt; simpl String.length; lia).
    simpl in H. apply Z.eqb_eq in H.
    rewrite (split_absent _ _ H). reflexivity.
Qed.

Lemma storeCookies_copies_agree (jar : CookieJar) (raw : RawCookies) :
  match linesOf raw with
  | Some lines => forallb singleEquals lines = true
  | None => True
  end ->
  CookieUtils.storeCookies jar raw = Index.storeCookies jar raw.
Proof.
  unfold CookieUtils.storeCookies, Index.storeCookies.
  destruct (linesOf raw) as [lines|]; [|reflexivity].
  revert jar. induction lines as [|line lines IH]; intros jar H; simpl in *.
  - reflexivity.
  - apply andb_prop in H as [H1 H2].
    rewrite (storeLine_copies_agree jar line H1).
    destruct (Index.storeLine jar line) as [jar' [|e]]; [apply IH, H2 | reflexivity].
Qed.

Lemma indexOf_cons_absent (c d : ascii) (s : string) :
  Js.indexOf c (String d s) = (-1)%Z <->
  Ascii.eqb d c = false /\ Js.indexOf c s = (-1)%Z.
Proof.
  simpl. pose proof (indexOf_lower_bound c s).
  destruct (Ascii.eqb d c); [split; [discriminate | intros [? _]; discriminate]|].
  destruct (Js.indexOf c s <? 0)%Z eqn:E.
  - apply Z.ltb_lt in E. split; [intros _; split; [reflexivity | lia] | reflexivity].
  - apply Z.ltb_ge in E. split; [lia | intros [_ ?]; lia].
Qed.

Lemma whitespace_is_not (c d : ascii) :
  Js.isWhiteSpace c = false -> Js.isWhiteSpace d = true -> Ascii.eqb d c = false.
Proof.
  intros Hc Hd. apply Ascii.eqb_neq. intros ->. congruence.
Qed.

(** Trimming neither removes nor brings in a character that is not white
    space. *)
Lemma indexOf_trimStart (c : ascii) (s : string) :
  Js.isWhiteSpace c = false ->
  (Js.indexOf c (Js.trimStart s) = (-1)%Z <-> Js.indexOf c s = (-1)%Z).
Proof.
  intros Hc. induction s as [|d s IH]; [reflexivity|].
  cbn [Js.trimStart]. destruct (Js.isWhiteSpace d) eqn:Hd; [|reflexivity].
  rewrite IH, indexOf_cons_absent, (whitespace_is_not c d Hc Hd). tauto.
Qed.

Lemma indexOf_trimEnd (c : ascii) (s : string) :
  Js.isWhiteSpace c = false ->
  (Js.indexOf c (Js.trimEnd s) = (-1)%Z <-> Js.indexOf c s = (-1)%Z).
Proof.
  intros Hc. induction s as [|d s IH]; [reflexivity|].
  cbn [Js.trimEnd]. destruct (Js.trimEnd s) as [|e t] eqn:Ht.
  - assert (Hs : Js.indexOf c s = (-1)%Z) by (now apply IH).
    destruct (Js.isWhiteSpace d) eqn:Hd.
    + rewrite indexOf_cons_absent, (whitespace_is_not c d Hc Hd). simpl. tauto.
    + rewrite !indexOf_cons_absent. simpl. tauto.
  - rewrite (indexOf_cons_absent c d (String e t)),
            (indexOf_cons_absent c d s), IH.
    tauto.
Qed.

Lemma indexOf_trim (c : ascii) (s : string) :
  Js.isWhiteSpace c = false ->
  (Js.indexOf c (Js.trim s) = (-1)%Z <-> Js.indexOf c s = (-1)%Z).
Proof.
  intros Hc. unfold Js.trim.
  now rewrite indexOf_trimEnd, indexOf_trimStart.
Qed.

Lemma set_injective (jar : CookieJar) (k v v' : string) :
  JsMap.set jar k v = JsMap.set jar k v' -> v = v'.
Proof.
  intros H. pose proof (get_set_same jar k v) as H1.
  rewrite H, get_set_same in H1. congruence.
Qed.

(** On every other line the two loop bodies differ, whatever the jar:
    cookieUtils.ts throws where index.ts skips, or stores a value cut at
    its first [=] where index.ts stores it whole. *)
Lemma storeLine_copies_differ (jar : CookieJar) (line : string) :
  singleEquals line = false ->
  CookieUtils.storeLine jar line <> Index.storeLine jar line.
Proof.
  unfold singleEquals. intros H.
  destruct (Z.eq_dec (Js.indexOf "=" (firstSegment line)) (-1)) as [Hno|Hyes].
  - rewrite (utils_storeLine_without_equals jar line Hno),
            (index_storeLine_without_equals jar line Hno).
    destruct (firstSegment line) as [|c seg]; [discriminate|]. discriminate.
  - pose proof (indexOf_lower_bound "=" (firstSegment line)) as Hlb.
    destruct (indexOf_found "=" (firstSegment line)) as (a & rest & Hseg & Ha);
      [lia|].
    rewrite (utils_storeLine_with_equals jar line a rest Hseg Ha),
            (index_storeLine_with_equals jar line a rest Hseg Ha).
    rewrite Hseg in H. rewrite (indexOf_at_first _ _ _ Ha) in H.
    rewrite sliceFrom_after in H.
    destruct a as [|c a]; [discriminate|]. simpl Js.truthy. cbv iota.
    simpl append in H.
    replace (Z.of_nat (String.length (String c a)) =? 0)%Z with false in H
      by (symmetry; apply Z.eqb_neq; simpl String.length; lia).
    replace (Z.of_nat (String.length (String c a)) >? 0)%Z with true in H
      by (symmetry; apply Z.gtb_lt; simpl String.length; lia).
    simpl in H. apply Z.eqb_neq in H.
    pose proof (indexOf_lower_bound "=" rest) as Hlb'.
    destruct (indexOf_found "=" rest) as (v & more & Hrest & Hv); [lia|].
    rewrite Hrest at 1. rewrite (split_at_first _ _ _ Hv). simpl hd.
    intros Heq. injection Heq as Heq. apply set_injective in Heq.
    apply H. apply (indexOf_trim "=" rest); [reflexivity|].
    rewrite <- Heq. now apply indexOf_trim.
Qed.

(** ** The regular-expression matcher *)

Lemma prefix_iff (w s : string) :
  String.prefix w s = true <-> exists rest, s = (w ++ rest)%string.
Proof.
  revert s. induction w as [|c w IH]; intros s.
  - split; [intros _; now exists s | intros _; destruct s; reflexivity].
  - destruct s as [|d s]; simpl.
    + split; [discriminate | intros [rest H]; discriminate].
    + destruct (ascii_dec c d) as [->|Hne].
      * rewrite IH. split; intros [rest H]; exists rest; congruence.
      * split; [discriminate | intros [rest H]; congruence].
Qed.

Lemma sameChar_exact (c d : ascii) :
  Regex.sameChar false c d = Ascii.eqb c d.
Proof.
  unfold Regex.sameChar, Regex.canonicalize. simpl negb. cbv iota.
  destruct (Ascii.eqb c d) eqn:E.
  - apply Ascii.eqb_eq in E. subst. apply N.eqb_refl.
  - apply N.eqb_neq. intros H. apply Ascii.eqb_neq in E. apply E.
    rewrite <- (ascii_N_embedding c), <- (ascii_N_embedding d). now rewrite H.
Qed.

Lemma allAscii_complete (d : ascii) : In d allAscii.
Proof.
  unfold allAscii. rewrite <- (ascii_nat_embedding d).
  apply in_map, in_seq. pose proof (nat_ascii_bounded d). lia.
Qed.

Lemma lowerOnly_sameChar (c d : ascii) :
  lowerOnly c = true ->
  Regex.sameChar true c d = Ascii.eqb (asciiLower d) c.
Proof.
  unfold lowerOnly. rewrite forallb_forall. intros H.
  apply Bool.eqb_prop, H, allAscii_complete.
Qed.

(** A run of literal characters matches what [stripPrefix] strips. *)
Lemma matchNode_chars (ic : bool) (w : string) (k : bool -> string -> bool)
  (atStart : bool) (s : string) :
  Regex.matchNode ic (Regex.chars w) k atStart s =
    match stripPrefix ic w s with
    | Some rest => k (atStart && isEmpty w) rest
    | None => false
    end.
Proof.
  revert k atStart s. induction w as [|c w IH]; intros k atStart s; simpl.
  - now rewrite andb_true_r.
  - destruct s as [|d s]; [reflexivity|].
    destruct (Regex.sameChar ic c d); simpl; [|reflexivity].
    rewrite IH, andb_false_r. reflexivity.
Qed.

Lemma stripPrefix_app (ic : bool) (w1 w2 s : string) :
  stripPrefix ic (w1 ++ w2) s =
    match stripPrefix ic w1 s with
    | Some rest => stripPrefix ic w2 rest
    | None => None
    end.
Proof.
  revert s. induction w1 as [|c w1 IH]; intros s; simpl; [reflexivity|].
  destruct s as [|d s]; [reflexivity|].
  destruct (Regex.sameChar ic c d); [apply IH | reflexivity].
Qed.

Lemma stripPrefix_exact (w s : string) :
  isSome (stripPrefix false w s) = String.prefix w s.
Proof.
  revert s. induction w as [|c w IH]; intros s; simpl;
    [destruct s; reflexivity|].
  destruct s as [|d s]; [reflexivity|]. simpl.
  rewrite sameChar_exact.
  destruct (ascii_dec c d) as [->|Hne].
  - rewrite Ascii.eqb_refl. apply IH.
  - apply Ascii.eqb_neq in Hne. now rewrite Hne.
Qed.

Lemma stripPrefix_lower (w s : string) :
  allChars lowerOnly w = true ->
  isSome (stripPrefix true w s) = String.prefix w (lowerCase s).
Proof.
  revert s. induction w as [|c w IH]; intros s Hw; simpl;
    [destruct s; reflexivity|].
  simpl in Hw. apply andb_prop in Hw as [Hc Hw].
  destruct s as [|d s]; [reflexivity|]. simpl.
  rewrite (lowerOnly_sameChar c d Hc).
  destruct (ascii_dec c (asciiLower d)) as [->|Hne].
  - rewrite Ascii.eqb_refl. now apply IH.
  - assert (Ascii.eqb (asciiLower d) c = false) as ->
      by (apply Ascii.eqb_neq; congruence).
    reflexivity.
Qed.

Lemma lowerCase_append (a b : string) :
  lowerCase (a ++ b) = (lowerCase a ++ lowerCase b)%string.
Proof. induction a as [|c a IH]; simpl; [reflexivity | now rewrite IH]. Qed.

(** The lower-cased string begins with [w] exactly when the string begins
    with some spelling of [w]. *)
Lemma prefix_lowerCase_iff (w s : string) :
  String.prefix w (lowerCase s) = true <->
  exists found rest, s = (found ++ rest)%string /\ lowerCase found = w.
Proof.
  split.
  - revert s. induction w as [|c w IH]; intros s H.
    + exists EmptyString, s. split; reflexivity.
    + destruct s as [|d s]; simpl in H; [discriminate|].
      destruct (ascii_dec c (asciiLower d)) as [->|Hne]; [|discriminate].
      destruct (IH s H) as (found & rest & -> & Hf).
      exists (String d found), rest. simpl. now rewrite Hf.
  - intros (found & rest & -> & <-). rewrite lowerCase_append.
    apply prefix_iff. now exists (lowerCase rest).
Qed.

(** The search loop finds a match at some start index. *)
Lemma search_iff (ic : bool) (n : Regex.Node) (atStart : bool) (s : string) :
  Regex.search ic n atStart s = true <->
  exists before rest,
    s = (before ++ rest)%string
    /\ Regex.matchNode ic n (fun _ _ => true) (atStart && isEmpty before) rest = true.
Proof.
  revert atStart. induction s as [|c s IH]; intros atStart; simpl.
  - rewrite orb_false_r. split.
    + intros H. exists EmptyString, EmptyString. now rewrite andb_true_r.
    + intros (before & rest & Heq & H).
      destruct before; [|discriminate]. simpl in Heq. subst rest.
      now rewrite andb_true_r in H.
  - rewrite orb_true_iff, IH. split.
    + intros [H|(before & rest & -> & H)].
      * exists EmptyString, (String c s). now rewrite andb_true_r.
      * exists (String c before), rest. split; [reflexivity|].
        now rewrite andb_false_r.
    + intros (before & rest & Heq & H). destruct before as [|d before].
      * left. simpl in Heq. subst rest. now rewrite andb_true_r in H.
      * right. simpl in Heq. injection Heq as <- ->.
        exists before, rest. split; [reflexivity|].
        now rewrite andb_false_r in H.
Qed.

Lemma matchNode_Char (ic : bool) (c : ascii) (k : bool -> string -> bool)
  (atStart : bool) (s : string) :
  Regex.matchNode ic (Regex.Char c) k atStart s =
    match stripPrefix ic (String c EmptyString) s with
    | Some rest => k false rest
    | None => false
    end.
Proof.
  destruct s as [|d s]; simpl; [reflexivity|].
  destruct (Regex.sameChar ic c d); reflexivity.
Qed.

(** [/^\/api/] accepts the strings that begin with [/api]. *)
Lemma defaultApiPattern_iff (pathname : string) :
  test defaultApiPattern pathname = true <->
  exists rest, pathname = ("/api" ++ rest)%string.
Proof.
  unfold defaultApiPattern, Regex.literal. cbn [test].
  rewrite search_iff, <- prefix_iff, <- stripPrefix_exact. split.
  - intros (before & rest & Heq & H).
    change (Regex.matchNode false (Regex.Seq Regex.LineStart (Regex.chars "/api"))
              (fun _ _ => true) (true && isEmpty before) rest)
      with ((true && isEmpty before)
            && Regex.matchNode false (Regex.chars "/api") (fun _ _ => true)
                 (true && isEmpty before) rest) in H.
    apply andb_prop in H as [Hb H]. destruct before; [|discriminate].
    simpl in Heq. subst rest. rewrite matchNode_chars in H.
    destruct (stripPrefix false "/api" pathname); [reflexivity | discriminate].
  - intros H. exists EmptyString, pathname. split; [reflexivity|].
    change (Regex.matchNode false (Regex.Seq Regex.LineStart (Regex.chars "/api"))
              (fun _ _ => true) (true && isEmpty "") pathname)
      with (Regex.matchNode false (Regex.chars "/api") (fun _ _ => true)
              true pathname).
    rewrite matchNode_chars.
    destruct (stripPrefix false "/api" pathname); [reflexivity | discriminate].
Qed.

(** At one start index, [/\/(login|sso)\//i] matches a spelling of
    [/login/] or of [/sso/]. *)
Lemma loginOrSso_at (atStart : bool) (s : string) :
  Regex.matchNode true
    (Regex.Seq (Regex.Char "/")
       (Regex.Seq (Regex.Alt (Regex.chars "login") (Regex.chars "sso"))
          (Regex.Char "/")))
    (fun _ _ => true) atStart s
  = isSome (stripPrefix true "/login/" s) || isSome (stripPrefix true "/sso/" s).
Proof.
  change "/login/" with ("/" ++ "login" ++ "/")%string.
  change "/sso/" with ("/" ++ "sso" ++ "/")%string.
  rewrite !stripPrefix_app.
  change (Regex.matchNode true
            (Regex.Seq (Regex.Char "/")
               (Regex.Seq (Regex.Alt (Regex.chars "login") (Regex.chars "sso"))
                  (Regex.Char "/")))
            (fun _ _ => true) atStart s)
    with (Regex.matchNode true (Regex.Char "/")
            (fun b' s' =>
               Regex.matchNode true (Regex.chars "login")
                 (Regex.matchNode true (Regex.Char "/") (fun _ _ => true)) b' s'
               || Regex.matchNode true (Regex.chars "sso")
                    (Regex.matchNode true (Regex.Char "/") (fun _ _ => true)) b' s')
            atStart s).
  rewrite matchNode_Char.
  destruct (stripPrefix true "/" s) as [r|]; [|reflexivity].
  rewrite !matchNode_chars, !stripPrefix_app.
  destruct (stripPrefix true "login" r) as [r1|];
    destruct (stripPrefix true "sso" r) as [r2|];
    rewrite ?matchNode_Char;
    repeat match goal with
           | |- context [stripPrefix true "/" ?x] =>
               destruct (stripPrefix true "/" x)
           end;
    reflexivity.
Qed.

Lemma loginOrSsoPattern_iff (l : string) :
  test loginOrSsoPattern l = true <->
  containsIgnoringCase "/login/" l \/ containsIgnoringCase "/sso/" l.
Proof.
  unfold loginOrSsoPattern, Regex.literal, containsIgnoringCase. cbn [test].
  rewrite search_iff.
  assert (Hlogin : allChars lowerOnly "/login/" = true) by (vm_compute; reflexivity).
  assert (Hsso : allChars lowerOnly "/sso/" = true) by (vm_compute; reflexivity).
  split.
  - intros (before & rest & -> & H). rewrite loginOrSso_at in H.
    apply orb_true_iff in H as [H|H]; [left | right].
    + rewrite (stripPrefix_lower _ _ Hlogin) in H.
      apply prefix_lowerCase_iff in H as (found & after & -> & Hf).
      exists before, found, after. split; [reflexivity | exact Hf].
    + rewrite (stripPrefix_lower _ _ Hsso) in H.
      apply prefix_lowerCase_iff in H as (found & after & -> & Hf).
      exists before, found, after. split; [reflexivity | exact Hf].
  - intros [(before & found & after & -> & Hf)|(before & found & after & -> & Hf)];
      exists before, (found ++ after)%string; (split; [reflexivity|]);
      rewrite loginOrSso_at; apply orb_true_iff; [left | right].
    + rewrite (stripPrefix_lower _ _ Hlogin).
      apply prefix_lowerCase_iff. exists found, after. split; [reflexivity | exact Hf].
    + rewrite (stripPrefix_lower _ _ Hsso).
      apply prefix_lowerCase_iff. exists found, after. split; [reflexivity | exact Hf].
Qed.

(** ** The unauthenticated-response detector *)

(** C5.  With no [unauthDetector] configured, the detector answers true
    exactly for status 401, and for status 302 when the Location header
    (the empty string when absent) contains [/login/] or [/sso/], letter case
    ignored; the four sample classifications hold. *)
Theorem C5_default_unauthDetector :
  (forall (paths : option (list PathRule))
          (login : option (option AxiosRequestConfig))
          (status : Z) (headers : IncomingHttpHeaders),
      unauthDetector
        (normalizeOptions
           {| opt_apiPaths := paths; opt_headlessLogin := login;
              opt_unauthDetector := None |})
        status headers = true
      <->
      (status = 401%Z
       \/ (status = 302%Z
           /\ (containsIgnoringCase "/login/"
                 (match location headers with Some l => l | None => "" end)
               \/ containsIgnoringCase "/sso/"
                    (match location headers with Some l => l | None => "" end)))))
  /\ defaultUnauthDetector 401 noHeaders = true
  /\ defaultUnauthDetector 302
       {| location := Some "/sso/callback"; set_cookie := RawUndefined |} = true
  /\ defaultUnauthDetector 302
       {| location := Some "/other"; set_cookie := RawUndefined |} = false
  /\ defaultUnauthDetector 200 noHeaders = false.
Proof.
  split; [|repeat split].
  intros paths login status headers.
  change (unauthDetector _ status headers)
    with (defaultUnauthDetector status headers).
  unfold defaultUnauthDetector.
  rewrite orb_true_iff, andb_true_iff, !Z.eqb_eq, loginOrSsoPattern_iff.
  reflexivity.
Qed.

(** ** The path filter *)

Lemma get_after_prefix (p rest : string) :
  String.get (String.length p) (p ++ rest) =
    match rest with
    | EmptyString => None
    | String c _ => Some c
    end.
Proof.
  induction p as [|d p IH]; simpl.
  - destruct rest; reflexivity.
  - exact IH.
Qed.

(** A string rule: the path begins with the rule, and right after the rule
    the path ends or has a [/]. *)
Lemma ruleMatches_iff (pathname : string) (rule : PathRule) :
  ruleMatches pathname rule = true <-> ruleAccepts pathname rule.
Proof.
  destruct rule as [p|r]; simpl; [|reflexivity].
  unfold Js.startsWith, Js.charAt. rewrite andb_true_iff, prefix_iff. split.
  - intros [[rest ->] H]. exists rest. split; [reflexivity|].
    rewrite length_append, get_after_prefix in H.
    apply orb_true_iff in H as [H|H].
    + left. apply Nat.eqb_eq in H. destruct rest; [reflexivity | simpl in H; lia].
    + right. destruct rest as [|c rest]; [discriminate|].
      apply Ascii.eqb_eq in H. subst c. now exists rest.
  - intros (rest & -> & H). split; [now exists rest|].
    rewrite length_append, get_after_prefix.
    destruct H as [->|[rest' ->]]; apply orb_true_iff.
    + left. apply Nat.eqb_eq. simpl. lia.
    + right. reflexivity.
Qed.

(** C6.  The filter answers true exactly when some rule accepts the path: a
    string rule when the path begins with it and then ends or goes on with
    [/], a pattern rule when its [test] accepts the path.  The rule ["/api"]
    takes [/api] and [/api/users] and refuses [/apikey]. *)
Theorem C6_filterFunction_matches_some_rule :
  (forall (rules : list PathRule) (pathname : string),
      filterFunction rules pathname = true
      <-> exists rule, In rule rules /\ ruleAccepts pathname rule)
  /\ filterFunction [RuleString "/api"] "/api" = true
  /\ filterFunction [RuleString "/api"] "/api/users" = true
  /\ filterFunction [RuleString "/api"] "/apikey" = false.
Proof.
  split; [|repeat split].
  intros rules pathname. unfold filterFunction. rewrite existsb_exists.
  split; intros (rule & Hin & H); exists rule; (split; [exact Hin|]);
    now apply ruleMatches_iff.
Qed.

(** C7 as stated fails: with no [apiPaths] configured,
    [/apikey] passes the filter although it is neither [/api] nor begins with
    [/api/]. *)
Lemma C7_default_rule_is_not_a_literal_prefix :
  filterFunction (apiPaths (normalizeOptions noOptions)) "/apikey" = true
  /\ "/apikey" <> "/api"
  /\ Js.startsWith "/apikey" "/api/" = false.
Proof. repeat split. discriminate. Qed.

(** C7, amended.  With no [apiPaths] configured the only rule is the
    pattern [/^\/api/]: a path is proxied exactly when it begins with [/api],
    whatever follows, so [/api], [/api/users] and [/apikey] are all proxied. *)
Theorem C7_default_rule_is_the_api_pattern :
  (forall (login : option (option AxiosRequestConfig))
          (detector : option (Z -> IncomingHttpHeaders -> bool))
          (pathname : string),
      filterFunction
        (apiPaths
           (normalizeOptions
              {| opt_apiPaths := None; opt_headlessLogin := login;
                 opt_unauthDetector := detector |}))
        pathname = true
      <-> exists rest, pathname = ("/api" ++ rest)%string)
  /\ filterFunction (apiPaths (normalizeOptions noOptions)) "/api" = true
  /\ filterFunction (apiPaths (normalizeOptions noOptions)) "/api/users" = true
  /\ filterFunction (apiPaths (normalizeOptions noOptions)) "/apikey" = true
  /\ filterFunction (apiPaths (normalizeOptions noOptions)) "/v1/api" = false.
Proof.
  split; [|repeat split].
  intros login detector pathname.
  change (apiPaths _) with [RuleRegExp defaultApiPattern].
  unfold filterFunction, existsb, ruleMatches.
  rewrite orb_false_r. apply defaultApiPattern_iff.
Qed.

(** ** The outbound Cookie header *)

(** [name=value] pairs joined by ["; "]. *)
Lemma jarToString_pairs (k v : string) (jar : CookieJar) :
  CookieUtils.jarToString [] = EmptyString
  /\ CookieUtils.jarToString [(k, v)] = (k ++ "=" ++ v)%string
  /\ (jar <> [] ->
      CookieUtils.jarToString ((k, v) :: jar)
      = (k ++ "=" ++ v ++ "; " ++ CookieUtils.jarToString jar)%string).
Proof.
  repeat split. intros Hne. destruct jar as [|kv jar]; [congruence|].
  unfold CookieUtils.jarToString, Js.join, JsMap.entries. simpl.
  now rewrite !append_assoc.
Qed.

(** C8.  The [proxyReq] hook composes the value the claim describes: the
    request's own Cookie header and the rendered jar ([name=value] pairs joined
    by ["; "]) joined with ["; "], an empty or missing part left out; and it
    calls [setHeader] with that value exactly when the value is not empty.
    But it makes the call past [await], in a job that runs after the listener
    has returned: the listener hands the request back as it came, and when
    the head of the request is written before the job runs, [setHeader] throws
    and the request goes out with the header it came with.  For the jar
    [{a: "1", b: "2"}] and the header [c=3] the value composed is
    [c=3; a=1; b=2], three pairs with three distinct names, and the header
    sent is [c=3]; the exception is a rejection nobody handles in
    proxyHandler.ts and is swallowed in index.ts.  Only a transport that
    lets the job run before it writes the head sends the composed value, and
    that value is what the hook of the machine records as composed. *)
Theorem C8_cookie_header_composed_after_the_head_is_written :
  (forall (existingCookies : option string) (jar : CookieJar),
      let own := match existingCookies with Some e => e | None => "" end in
      let combined := combinedCookies existingCookies jar in
      combined = joinSkippingEmpty own (CookieUtils.jarToString jar)
      /\ CookieUtils.jarToString jar
         = Js.join "; " (map (fun kv => fst kv ++ "=" ++ snd kv)%string jar)
      /\ (forall v, proxyReqSetHeader existingCookies jar = Some v
                    <-> v = combined /\ v <> EmptyString)
      /\ fst (proxyReqListener (freshRequest existingCookies))
         = freshRequest existingCookies
      /\ sendProxied HeadWrittenFirst jar existingCookies
         = (writeHead (freshRequest existingCookies),
            if isEmpty combined then Js.Normal else Js.Abrupt errHeadersSent)
      /\ sendProxied JobsRunFirst jar existingCookies
         = ({| cookieHeader := cookieHeaderAfter existingCookies jar;
               headersSent := true |}, Js.Normal))
  /\ (forall (r : ClientRequest) (s : Server),
        history (composeCookies r s)
        = history s
          ++ [CookieComposed (reqId r)
                (cookieHeader
                   (fst (sendProxied JobsRunFirst (jar (store s)) (cookie r))))])
  /\ combinedCookies (Some "c=3") [("a", "1"); ("b", "2")] = "c=3; a=1; b=2"
  /\ map Js.trim (Js.split ";" "c=3; a=1; b=2") = ["c=3"; "a=1"; "b=2"]
  /\ cookieNames "c=3; a=1; b=2" = ["c"; "a"; "b"]
  /\ NoDup (cookieNames "c=3; a=1; b=2")
  /\ sendProxied HeadWrittenFirst [("a", "1"); ("b", "2")] (Some "c=3")
     = ({| cookieHeader := Some "c=3"; headersSent := true |},
        Js.Abrupt errHeadersSent)
  /\ unhandledRejection Modular
       (snd (sendProxied HeadWrittenFirst [("a", "1"); ("b", "2")] (Some "c=3")))
     = Some errHeadersSent
  /\ unhandledRejection AllInOne
       (snd (sendProxied HeadWrittenFirst [("a", "1"); ("b", "2")] (Some "c=3")))
     = None.
Proof.
  split.
  - intros existingCookies jar own combined. subst own combined.
    split; [|split; [reflexivity|split; [|split; [reflexivity|split]]]].
    + unfold combinedCookies, filterBoolean, Js.join.
      destruct existingCookies as [[|c e]|];
        destruct (CookieUtils.jarToString jar) as [|d p]; reflexivity.
    + intros v. unfold proxyReqSetHeader.
      destruct (combinedCookies existingCookies jar) as [|c s]; simpl.
      * split; [discriminate | intros [-> H]; congruence].
      * split; [intros [= <-]; split; [reflexivity | discriminate]
               | intros [-> _]; reflexivity].
    + unfold sendProxied, proxyReqListener, proxyReqResumed, getHeader,
        writeHead, freshRequest, setHeader, proxyReqSetHeader.
      cbn [cookieHeader headersSent].
      destruct (combinedCookies existingCookies jar); reflexivity.
    + unfold sendProxied, proxyReqListener, proxyReqResumed, getHeader,
        writeHead, freshRequest, setHeader, cookieHeaderAfter,
        proxyReqSetHeader.
      cbn [cookieHeader headersSent].
      destruct (combinedCookies existingCookies jar); reflexivity.
  - split.
    { intros r s.
      unfold composeCookies, observe, sendProxied, proxyReqListener,
        proxyReqResumed, getHeader, writeHead, freshRequest, setHeader,
        cookieHeaderAfter.
      cbn [history cookieHeader headersSent].
      destruct (proxyReqSetHeader (cookie r) (jar (store s))); reflexivity. }
    split; [reflexivity|]. split; [reflexivity|]. split; [reflexivity|].
    split.
    + change (cookieNames "c=3; a=1; b=2") with ["c"; "a"; "b"].
      repeat constructor; simpl; intuition discriminate.
    + split; [reflexivity|]. split; reflexivity.
Qed.

(** ** doHeadlessLogin *)

(** Whatever the axios call does and whatever [storeCookies] throws, the
    function returns: its promise is fulfilled, never rejected. *)
Lemma afterAxios_never_throws (b : Build) (label : string) (net : AxiosOutcome)
  (st : Store) :
  snd (afterAxios b label net st) = Js.Normal.
Proof.
  unfold afterAxios, tryCatch. destruct net as [headers|e]; [|reflexivity].
  unfold andThen, storeCookiesStmt.
  destruct (storeCookies b (jar st) (set_cookie headers)) as [jar' [|e]];
    reflexivity.
Qed.

Lemma doHeadlessLogin_never_throws (b : Build) (opts : NormalizedOptions)
  (label : string) (net : AxiosOutcome) (st : Store) :
  snd (doHeadlessLogin b opts label net st) = Js.Normal.
Proof.
  unfold doHeadlessLogin. destruct (headlessLogin opts); [|reflexivity].
  apply afterAxios_never_throws.
Qed.

(** A rejected axios call (transport error, refused status, timeout) is
    logged and leaves the jar as it was, in both builds. *)
Lemma doHeadlessLogin_rejected_keeps_jar (b : Build) (opts : NormalizedOptions)
  (label : string) (e : Js.Thrown) (st : Store) :
  headlessLogin opts <> None ->
  doHeadlessLogin b opts label (AxiosError e) st
  = ({| jar := jar st;
        logged := logged st ++ [LoginFailed label (failureMessage b e)] |},
     Js.Normal).
Proof.
  intros Hon. unfold doHeadlessLogin.
  destruct (headlessLogin opts); [reflexivity | congruence].
Qed.

(** index.ts: the outcome is one of two, cookies merged and success logged,
    or failure logged and the jar untouched. *)
Lemma allInOne_login_merges_or_fails (opts : NormalizedOptions) (label : string)
  (net : AxiosOutcome) (st : Store) :
  headlessLogin opts <> None ->
  let st' := fst (doHeadlessLogin AllInOne opts label net st) in
  (exists headers,
      net = AxiosResponse headers
      /\ jar st' = fst (Index.storeCookies (jar st) (set_cookie headers))
      /\ logged st' = logged st ++ [LoginSucceeded label])
  \/ (exists e,
         net = AxiosError e
         /\ jar st' = jar st
         /\ logged st' = logged st ++ [LoginFailed label (failureMessage AllInOne e)]).
Proof.
  intros Hon. unfold doHeadlessLogin.
  destruct (headlessLogin opts); [|congruence].
  destruct net as [headers|e]; [left; exists headers | right; exists e];
    (split; [reflexivity|]).
  - unfold afterAxios, tryCatch, andThen, storeCookiesStmt. simpl storeCookies.
    pose proof (index_storeCookies_completes (jar st) (set_cookie headers)) as Hc.
    destruct (Index.storeCookies (jar st) (set_cookie headers)) as [jar' [|e]];
      simpl in Hc; [split; reflexivity | discriminate].
  - split; reflexivity.
Qed.

(** C9.  [doHeadlessLogin] is to return in every case and, when the attempt
    fails, to log the failure and leave the jar alone.  It does return in
    every case ([doHeadlessLogin_never_throws]) and a rejected request leaves
    the jar alone ([doHeadlessLogin_rejected_keeps_jar]).  In proxyHandler.ts
    there is one more way to fail: [storeCookies] sits inside the [try], and
    cookieUtils.ts throws on a Set-Cookie entry without [=] after having
    stored the entries before it.  The response below is reported as a failed
    login while [a=1] has entered the jar. *)
Theorem C9_failed_login_after_partial_merge :
  doHeadlessLogin Modular loginOn "refresh"
    (AxiosResponse (withSetCookie ["a=1"; "HttpOnly"])) emptyStore
  = ({| jar := [("a", "1")];
        logged := [LoginFailed "refresh"
                     "Cannot read properties of undefined (reading 'trim')"] |},
     Js.Normal)
  /\ doHeadlessLogin AllInOne loginOn "refresh"
       (AxiosResponse (withSetCookie ["a=1"; "HttpOnly"])) emptyStore
     = ({| jar := [("a", "1")]; logged := [LoginSucceeded "refresh"] |},
        Js.Normal).
Proof. split; reflexivity. Qed.

(** ** The event-driven machine *)

Lemma run_app (b : Build) (opts : NormalizedOptions) (s : Server)
  (evs1 evs2 : list Event) :
  run b opts s (evs1 ++ evs2) = run b opts (run b opts s evs1) evs2.
Proof. unfold run. apply fold_left_app. Qed.

Lemma resumeParked_nobody (p : nat) (s : Server) :
  parked s = [] -> resumeParked p s = s.
Proof.
  destruct s as [st g px pend park n h]. simpl. intros ->. reflexivity.
Qed.

Lemma callerOf_in (l : list (nat * Caller)) (p : nat) (c : Caller) :
  callerOf l p = Some c -> In (p, c) l.
Proof.
  induction l as [|[q d] l IH]; simpl; [discriminate|].
  destruct (Nat.eqb q p) eqn:E.
  - intros [= ->]. apply Nat.eqb_eq in E. subst. now left.
  - intros H. right. now apply IH.
Qed.

Lemma composedAfterStartup_app (h l : list Obs) :
  composedAfterStartup h ->
  ((exists rid v, In (CookieComposed rid v) l) -> In (LoginSettled 0) h) ->
  composedAfterStartup (h ++ l).
Proof.
  intros Hh Hl h1 h2 rid v Heq.
  apply app_eq_app in Heq as [m [[-> Hm]|[-> Hm]]].
  - destruct m as [|o m]; simpl in Hm.
    + rewrite app_nil_r in Hl. apply Hl. exists rid, v. rewrite <- Hm. now left.
    + injection Hm as <- _. exact (Hh h1 m rid v eq_refl).
  - apply in_or_app. left. apply Hl. exists rid, v. rewrite Hm.
    apply in_or_app. right. now left.
Qed.

Section Invariant.

Variable b : Build.
Variable opts : NormalizedOptions.

Lemma configureServer_invariant :
  invariant b (configureServer b opts).
Proof.
  unfold configureServer, callDoHeadlessLogin, invariant, numbersInUse,
    gateInvariant.
  destruct (headlessLogin opts) as [cfg|]; [destruct b|]; simpl.
  - repeat split; try tauto.
    + intros q c [[= <- <-]|[]]. lia.
    + intros q [H|[]]. discriminate.
    + intros h1 h2 rid v H. destruct h1 as [|o [|o' h1]]; discriminate.
    + intros rid v [H|[]]. discriminate.
  - repeat split; try tauto; try discriminate.
    + intros q c [[= <- <-]|[]]. lia.
    + intros q [H|[]]. discriminate.
    + intros h1 h2 rid v H. destruct h1 as [|o [|o' h1]]; discriminate.
    + intros rid v [H|[]]. discriminate.
  - repeat split; try tauto.
    + intros q [H|[[= <-]|[]]]; [discriminate | lia].
    + intros h1 h2 rid v H. destruct h1 as [|o [|o' [|o'' h1]]]; discriminate.
Qed.

Lemma composedAfterStartup_snoc (h : list Obs) (o : Obs) :
  composedAfterStartup h ->
  (forall rid v, o = CookieComposed rid v -> In (LoginSettled 0) h) ->
  composedAfterStartup (h ++ [o]).
Proof.
  intros Hh Ho. apply composedAfterStartup_app; [exact Hh|].
  intros (rid & v & [H|[]]). exact (Ho rid v H).
Qed.

Lemma onProxyReq_invariant (r : ClientRequest) (s : Server) :
  invariant b s -> invariant b (onProxyReq r s).
Proof.
  intros Hinv. unfold onProxyReq.
  destruct (proxy s) as [a|] eqn:Hpx; [|exact Hinv].
  destruct Hinv as [[Hpend Hsett] (Hord & Hpark & Hgate)].
  rewrite Hpx in Hgate. destruct Hgate as [Hs0 Hg]. rewrite Hg.
  unfold composeCookies, invariant, numbersInUse, gateInvariant. simpl.
  rewrite Hpx. repeat split; try assumption.
  - intros q Hq. apply in_app_or in Hq as [Hq|[Hq|[]]];
      [now apply Hsett | discriminate].
  - apply composedAfterStartup_snoc; [exact Hord | intros; exact Hs0].
  - apply in_or_app. now left.
Qed.

Lemma onProxyRes_invariant (statusCode : option Z)
  (headers : IncomingHttpHeaders) (s : Server) :
  invariant b s -> invariant b (onProxyRes b opts statusCode headers s).
Proof.
  intros Hinv. unfold onProxyRes.
  destruct (proxy s) as [a|] eqn:Hpx; [|exact Hinv].
  destruct Hinv as [[Hpend Hsett] (Hord & Hpark & Hgate)].
  rewrite Hpx in Hgate. destruct Hgate as [Hs0 Hg].
  destruct (storeCookiesStmt b (set_cookie headers) (store s)) as [st' [|e]].
  - destruct (unauthDetector opts _ headers).
    + destruct a as [p|].
      * unfold invariant, numbersInUse, gateInvariant. simpl. rewrite Hpx.
        repeat split; assumption.
      * unfold callDoHeadlessLogin.
        destruct (headlessLogin opts) as [cfg|];
          unfold invariant, numbersInUse, gateInvariant; simpl;
          repeat split; try assumption.
        -- intros q c Hq. apply in_app_or in Hq as [Hq|[[= <- <-]|[]]];
             [apply Hpend in Hq|]; lia.
        -- intros q Hq. apply in_app_or in Hq as [Hq|[Hq|[]]];
             [apply Hsett in Hq; lia | discriminate].
        -- apply composedAfterStartup_snoc; [exact Hord | discriminate].
        -- apply in_or_app. now left.
        -- intros q c Hq. apply Hpend in Hq. lia.
        -- intros q Hq. apply in_app_or in Hq as [Hq|[[= <-]|[]]]; [|lia].
           apply in_app_or in Hq as [Hq|[Hq|[]]];
             [apply Hsett in Hq; lia | discriminate].
        -- apply composedAfterStartup_snoc; [|discriminate].
           apply composedAfterStartup_snoc; [exact Hord | discriminate].
        -- apply in_or_app. left. apply in_or_app. now left.
    + unfold invariant, numbersInUse, gateInvariant. simpl. rewrite Hpx.
      repeat split; assumption.
  - unfold invariant, numbersInUse, gateInvariant. simpl. rewrite Hpx.
    repeat split; try assumption.
    + intros q Hq. apply in_app_or in Hq as [Hq|[Hq|[]]];
        [now apply Hsett | discriminate].
    + apply composedAfterStartup_snoc; [exact Hord | discriminate].
    + apply in_or_app. now left.
Qed.

Lemma onAxiosSettled_invariant (p : nat) (o : AxiosOutcome) (s : Server) :
  invariant b s -> invariant b (onAxiosSettled b p o s).
Proof.
  intros Hinv. unfold onAxiosSettled.
  destruct (callerOf (pending s) p) as [c|] eqn:Hc; [|exact Hinv].
  apply callerOf_in in Hc.
  destruct Hinv as [[Hpend Hsett] (Hord & Hpark & Hgate)].
  rewrite resumeParked_nobody
    by (destruct c; [destruct b|]; simpl; exact Hpark).
  assert (Hsub : forall q d,
             In (q, d) (filter (fun e => negb (Nat.eqb (fst e) p)) (pending s)) ->
             q < started s)
    by (intros q d Hq; apply filter_In in Hq as [Hq _]; now apply Hpend in Hq).
  assert (Hsett' : forall q,
             In (LoginSettled q) (history s ++ [LoginSettled p]) -> q < started s).
  { intros q Hq. apply in_app_or in Hq as [Hq|[[= <-]|[]]];
      [now apply Hsett | now apply Hpend in Hc]. }
  assert (Hord' : composedAfterStartup (history s ++ [LoginSettled p]))
    by (apply composedAfterStartup_snoc; [exact Hord | discriminate]).
  assert (Hs0 : In (LoginSettled 0) (history s ++ [LoginSettled p])).
  { destruct (proxy s) as [a|].
    - apply in_or_app. left. apply Hgate.
    - destruct Hgate as (Hp & _ & _). rewrite Hp in Hc.
      destruct Hc as [[= <- <-]|[]]. apply in_or_app. right. now left. }
  assert (Hg : c = Refresh \/ b = Modular -> refreshingPromise s = None).
  { destruct (proxy s) as [a|].
    - intros _. apply Hgate.
    - destruct Hgate as (Hp & Hm & _). rewrite Hp in Hc.
      destruct Hc as [[= <- <-]|[]]. intros [H|H]; [discriminate | now apply Hm]. }
  unfold invariant, numbersInUse, gateInvariant.
  destruct c; [destruct b|]; simpl; repeat split; try assumption;
    apply Hg; auto.
Qed.

Lemma step_invariant (s : Server) (ev : Event) :
  invariant b s -> invariant b (step b opts s ev).
Proof.
  destruct ev as [r|statusCode headers|p o]; simpl.
  - apply onProxyReq_invariant.
  - apply onProxyRes_invariant.
  - apply onAxiosSettled_invariant.
Qed.

Lemma run_invariant (evs : list Event) (s : Server) :
  invariant b s -> invariant b (run b opts s evs).
Proof.
  revert s. induction evs as [|ev evs IH]; intros s H; simpl; [exact H|].
  apply IH, step_invariant, H.
Qed.

Lemma reachable_invariant (s : Server) :
  Reachable b opts s -> invariant b s.
Proof.
  intros [evs ->]. apply run_invariant, configureServer_invariant.
Qed.

End Invariant.

(** ** Requests and refreshes *)

(** Composition waits for the startup login: in every run, whatever was
    composed was composed after the startup login had settled. *)
Lemma startup_login_precedes_composition (b : Build) (opts : NormalizedOptions)
  (evs : list Event) (h1 h2 : list Obs) (rid : nat) (v : option string) :
  history (run b opts (configureServer b opts) evs)
    = h1 ++ CookieComposed rid v :: h2 ->
  In (LoginSettled 0) h1.
Proof.
  intros H.
  destruct (run_invariant b opts evs _ (configureServer_invariant b opts))
    as [_ (Hord & _)].
  exact (Hord h1 h2 rid v H).
Qed.

(** A refresh started by the [proxyRes] hook holds nobody back: in a
    reachable state with the middleware installed, and so also while
    [activeRefreshPromise] is set and its login is still pending, the
    [proxyReq] hook composes the cookies in the same step, from the jar as it
    is. *)
Lemma refresh_in_progress_does_not_gate (b : Build) (opts : NormalizedOptions)
  (s : Server) (p : nat) (r : ClientRequest) :
  Reachable b opts s ->
  proxy s = Some (Some p) ->
  isPending s p = true ->
  history (step b opts s (ProxyReq r))
    = history s
      ++ [CookieComposed (reqId r) (cookieHeaderAfter (cookie r) (jar (store s)))]
  /\ isPending (step b opts s (ProxyReq r)) p = true.
Proof.
  intros Hreach Hpx Hp.
  destruct (reachable_invariant b opts s Hreach) as [_ (_ & _ & Hgate)].
  rewrite Hpx in Hgate. destruct Hgate as [_ Hg].
  simpl. unfold onProxyReq. rewrite Hpx, Hg. split; [reflexivity | exact Hp].
Qed.

(** C1.  A request that meets a refresh in progress is to have its cookies
    composed only after the refresh has settled and its Set-Cookie results are
    in the jar.  That holds of the startup login
    ([startup_login_precedes_composition]).  It does not hold of a refresh
    started by an unauthenticated response: the [proxyRes] hook keeps that
    promise in [activeRefreshPromise], while [gateRefresh] awaits
    [refreshingPromise], which proxyHandler.ts never assigns (index.ts
    assigns [globalRefresh] only at startup).  In the run below, in either
    build, the startup login stores [session=old], a 401 starts refresh 1, and
    request 1, arriving before refresh 1 settles, is sent with [session=old];
    [session=new] enters the jar afterwards. *)
Theorem C1_request_overtakes_reactive_refresh (b : Build) :
  let evs :=
    [AxiosSettles 0 (AxiosResponse (withSetCookie ["session=old"]));
     ProxyRes (Some 401%Z) noHeaders;
     ProxyReq {| reqId := 1; cookie := None |};
     AxiosSettles 1 (AxiosResponse (withSetCookie ["session=new"]))] in
  let final := run b loginOn (configureServer b loginOn) evs in
  history final
    = [LoginStarted 0 Startup; LoginSettled 0;
       LoginStarted 1 Refresh;
       CookieComposed 1 (Some "session=old");
       LoginSettled 1]
  /\ jar (store final) = [("session", "new")]
  /\ refreshingPromise final = None.
Proof. destruct b; repeat split. Qed.

(** ** Singleflight *)

Lemma storeLine_completion_any_jar (jar jar' : CookieJar) (line : string) :
  snd (CookieUtils.storeLine jar line) = snd (CookieUtils.storeLine jar' line).
Proof.
  unfold CookieUtils.storeLine. rewrite firstSegment_nth.
  destruct (nth_error (Js.split "=" (firstSegment line)) 0) as [n|]; [|reflexivity].
  destruct (Js.truthy (Some n)); [|reflexivity].
  destruct (nth_error (Js.split "=" (firstSegment line)) 1); reflexivity.
Qed.

(** Whether [storeCookies] throws depends on the lines, not on the jar. *)
Lemma storeCookies_completion_any_jar (b : Build) (jar jar' : CookieJar)
  (raw : RawCookies) :
  snd (storeCookies b jar raw) = snd (storeCookies b jar' raw).
Proof.
  destruct b; simpl.
  - unfold CookieUtils.storeCookies. destruct (linesOf raw) as [lines|];
      [|reflexivity].
    revert jar jar'. induction lines as [|line lines IH]; intros jar jar'; simpl;
      [reflexivity|].
    pose proof (storeLine_completion_any_jar jar jar' line) as H.
    destruct (CookieUtils.storeLine jar line) as [j1 [|e1]];
      destruct (CookieUtils.storeLine jar' line) as [j2 [|e2]];
      simpl in H; try discriminate; [apply IH | exact H].
  - now rewrite !index_storeCookies_completes.
Qed.

(** A hook appended one observation that is not the end of a login: a
    settled login in the new history was already in the old one. *)
Ltac old_settlement :=
  let q := fresh "q" in
  let Hq := fresh "Hq" in
  intros q Hq; apply in_app_or in Hq as [Hq|[Hq|[]]]; auto; discriminate.

Section Burst.

Variable b : Build.
Variable opts : NormalizedOptions.

Lemma step_while_refreshing (s : Server) (p : nat) (ev : Event) :
  proxy s = Some (Some p) -> isSettle ev = false ->
  proxy (step b opts s ev) = Some (Some p) /\ sameCalls s (step b opts s ev).
Proof.
  intros Hpx Hev. unfold sameCalls.
  destruct ev as [r|statusCode headers|q o]; [| |discriminate]; simpl.
  - unfold onProxyReq. rewrite Hpx.
    destruct (refreshingPromise s) as [g|]; [destruct (isPending s g)| ]; simpl;
      repeat split; auto;
      old_settlement.
  - unfold onProxyRes. rewrite Hpx.
    destruct (storeCookiesStmt b (set_cookie headers) (store s)) as [st' [|e]].
    + destruct (unauthDetector opts _ headers); simpl; repeat split; auto.
    + simpl. repeat split; auto.
      old_settlement.
Qed.

Lemma step_while_idle_quiet (s : Server) (ev : Event) :
  proxy s = Some None -> isSettle ev = false ->
  triggersRefresh b opts ev = false ->
  proxy (step b opts s ev) = Some None /\ sameCalls s (step b opts s ev).
Proof.
  intros Hpx Hev Hquiet. unfold sameCalls.
  destruct ev as [r|statusCode headers|q o]; [| |discriminate]; simpl.
  - unfold onProxyReq. rewrite Hpx.
    destruct (refreshingPromise s) as [g|]; [destruct (isPending s g)| ]; simpl;
      repeat split; auto;
      old_settlement.
  - unfold onProxyRes. rewrite Hpx. simpl in Hquiet.
    rewrite (storeCookies_completion_any_jar b _ (jar (store s))) in Hquiet.
    unfold storeCookiesStmt.
    destruct (storeCookies b (jar (store s)) (set_cookie headers)) as [jar' [|e]];
      simpl in Hquiet.
    + rewrite Hquiet. simpl. repeat split; auto.
    + simpl. repeat split; auto.
      old_settlement.
Qed.

Lemma step_idle_trigger (s : Server) (ev : Event) :
  proxy s = Some None -> headlessLogin opts <> None ->
  triggersRefresh b opts ev = true ->
  let s' := step b opts s ev in
  proxy s' = Some (Some (started s))
  /\ started s' = S (started s)
  /\ pending s' = pending s ++ [(started s, Refresh)]
  /\ (forall q, In (LoginSettled q) (history s') -> In (LoginSettled q) (history s)).
Proof.
  intros Hpx Hon Htrig.
  destruct ev as [r|statusCode headers|q o]; try discriminate; simpl in *.
  unfold onProxyRes. rewrite Hpx.
  rewrite (storeCookies_completion_any_jar b _ (jar (store s))) in Htrig.
  unfold storeCookiesStmt.
  destruct (storeCookies b (jar (store s)) (set_cookie headers)) as [jar' [|e]];
    simpl in Htrig; [|discriminate].
  rewrite Htrig. unfold callDoHeadlessLogin.
  destruct (headlessLogin opts) as [cfg|]; [|congruence]. simpl.
  repeat split.
  old_settlement.
Qed.

Lemma burst_while_refreshing (evs : list Event) (s : Server) (p : nat) :
  proxy s = Some (Some p) -> noSettle evs = true ->
  proxy (run b opts s evs) = Some (Some p) /\ sameCalls s (run b opts s evs).
Proof.
  revert s. induction evs as [|ev evs IH]; intros s Hpx Hns; simpl.
  - unfold sameCalls. auto.
  - simpl in Hns. apply andb_prop in Hns as [Hev Hns].
    apply negb_true_iff in Hev.
    destruct (step_while_refreshing s p ev Hpx Hev) as (Hpx' & H1 & H2 & H3).
    destruct (IH _ Hpx' Hns) as (Hpx'' & H1' & H2' & H3').
    split; [exact Hpx''|]. unfold sameCalls. repeat split; try congruence.
    auto.
Qed.

Lemma burst_while_idle (evs : list Event) (s : Server) :
  proxy s = Some None -> headlessLogin opts <> None -> noSettle evs = true ->
  let s' := run b opts s evs in
  (forall q, In (LoginSettled q) (history s') -> In (LoginSettled q) (history s))
  /\ if existsb (triggersRefresh b opts) evs
     then proxy s' = Some (Some (started s))
          /\ started s' = S (started s)
          /\ pending s' = pending s ++ [(started s, Refresh)]
     else proxy s' = Some None
          /\ started s' = started s
          /\ pending s' = pending s.
Proof.
  revert s. induction evs as [|ev evs IH]; intros s Hpx Hon Hns; simpl.
  - auto.
  - simpl in Hns. apply andb_prop in Hns as [Hev Hns].
    apply negb_true_iff in Hev.
    destruct (triggersRefresh b opts ev) eqn:Htrig; simpl.
    + destruct (step_idle_trigger s ev Hpx Hon Htrig)
        as (Hpx' & Hst & Hpend & Hsett).
      destruct (burst_while_refreshing evs _ _ Hpx' Hns)
        as (Hpx'' & H1 & H2 & H3).
      split; [auto|]. repeat split; congruence.
    + destruct (step_while_idle_quiet s ev Hpx Hev Htrig)
        as (Hpx' & H1 & H2 & H3).
      destruct (IH _ Hpx' Hon Hns) as [Hsett Hrest].
      split; [auto|]. rewrite H1, H2 in Hrest. exact Hrest.
Qed.

(** With [headlessLogin] off the call returns within the step that made
    it: a trigger leaves the slot empty, and the next trigger makes a call of
    its own, which does nothing. *)
Lemma step_idle_trigger_login_off (s : Server) (ev : Event) :
  proxy s = Some None -> headlessLogin opts = None ->
  triggersRefresh b opts ev = true ->
  let s' := step b opts s ev in
  proxy s' = Some None
  /\ started s' = S (started s)
  /\ pending s' = pending s
  /\ history s'
     = history s ++ [LoginStarted (started s) Refresh; LoginSettled (started s)].
Proof.
  intros Hpx Hoff Htrig.
  destruct ev as [r|statusCode headers|q o]; try discriminate; simpl in *.
  unfold onProxyRes. rewrite Hpx.
  rewrite (storeCookies_completion_any_jar b _ (jar (store s))) in Htrig.
  unfold storeCookiesStmt.
  destruct (storeCookies b (jar (store s)) (set_cookie headers)) as [jar' [|e]];
    simpl in Htrig; [|discriminate].
  rewrite Htrig. unfold callDoHeadlessLogin. rewrite Hoff. simpl.
  repeat split. now rewrite <- app_assoc.
Qed.

Lemma burst_login_off (evs : list Event) (s : Server) :
  headlessLogin opts = None -> proxy s = Some None -> noSettle evs = true ->
  proxy (run b opts s evs) = Some None /\ pending (run b opts s evs) = pending s.
Proof.
  intros Hoff. revert s. induction evs as [|ev evs IH]; intros s Hpx Hns; simpl.
  - auto.
  - simpl in Hns. apply andb_prop in Hns as [Hev Hns].
    apply negb_true_iff in Hev.
    destruct (triggersRefresh b opts ev) eqn:Htrig.
    + destruct (step_idle_trigger_login_off s ev Hpx Hoff Htrig)
        as (Hpx' & _ & Hp & _).
      destruct (IH _ Hpx' Hns) as [Hpx'' Hp']. split; congruence.
    + destruct (step_while_idle_quiet s ev Hpx Hev Htrig) as (Hpx' & _ & Hp & _).
      destruct (IH _ Hpx' Hns) as [Hpx'' Hp']. split; congruence.
Qed.

End Burst.

Lemma callerOf_new (l : list (nat * Caller)) (p : nat) (c : Caller) :
  (forall q d, In (q, d) l -> q <> p) ->
  callerOf (l ++ [(p, c)]) p = Some c.
Proof.
  induction l as [|[q d] l IH]; simpl; intros H.
  - now rewrite Nat.eqb_refl.
  - destruct (Nat.eqb q p) eqn:E.
    + apply Nat.eqb_eq in E. exfalso. apply (H q d); auto.
    + apply IH. intros q' d' Hin. apply (H q' d'). now right.
Qed.

Lemma not_pending_after_removal (l : list (nat * Caller)) (p : nat) :
  existsb (fun e => Nat.eqb (fst e) p)
          (filter (fun e => negb (Nat.eqb (fst e) p)) l) = false.
Proof.
  induction l as [|[q d] l IH]; simpl; [reflexivity|].
  destruct (Nat.eqb q p) eqn:E; simpl; [exact IH|].
  now rewrite E.
Qed.

(** Two elements that pass a test: one of them comes after another. *)
Lemma two_passing_split {A : Type} (f : A -> bool) (l : list A) :
  2 <= List.length (filter f l) ->
  exists l1 x l2, l = l1 ++ x :: l2 /\ existsb f l1 = true /\ f x = true.
Proof.
  induction l as [|a l IH]; simpl; [lia|].
  destruct (f a) eqn:Ha; simpl; intros H.
  - assert (Hex : existsb f l = true).
    { clear IH. induction l as [|y l IHl]; simpl in *; [lia|].
      destruct (f y); [reflexivity|]. apply IHl. exact H. }
    apply existsb_exists in Hex as (y & Hin & Hy).
    apply in_split in Hin as (l1 & l2 & ->).
    exists (a :: l1), y, l2. simpl. rewrite Ha. auto.
  - destruct (IH H) as (l1 & x & l2 & -> & Hex & Hx).
    exists (a :: l1), x, l2. simpl. rewrite Ha. auto.
Qed.

Lemma existsb_filter_length {A : Type} (f : A -> bool) (l : list A) :
  1 <= List.length (filter f l) -> existsb f l = true.
Proof.
  induction l as [|x l IH]; simpl; [lia|].
  destruct (f x); simpl; [reflexivity | exact IH].
Qed.

(** C2.  Singleflight.  Take a reachable state with the middleware installed
    and no refresh in progress, and a burst of events, none of which is the
    end of a login, holding N >= 2 concurrent triggers: responses that call
    for a refresh, each after the first arriving while the call made by the
    first is pending.  Then exactly one [doHeadlessLogin] call is made during
    the burst; from the first trigger on, at every point of the burst, the
    slot every trigger sees holds that one call's promise, which is pending
    and has not settled; and when that call settles, with whatever outcome,
    its promise settles, the slot is empty again and no further call was
    made. *)
Theorem C2_singleflight (b : Build) (opts : NormalizedOptions) (s : Server)
  (evs : list Event) :
  Reachable b opts s ->
  proxy s = Some None ->
  noSettle evs = true ->
  2 <= triggerCount b opts evs ->
  concurrentTriggers b opts s evs ->
  let p := started s in
  started (run b opts s evs) = S p
  /\ (forall evs1 evs2,
        evs = evs1 ++ evs2 ->
        existsb (triggersRefresh b opts) evs1 = true ->
        let s1 := run b opts s evs1 in
        proxy s1 = Some (Some p)
        /\ started s1 = S p
        /\ isPending s1 p = true
        /\ ~ In (LoginSettled p) (history s1))
  /\ (forall o : AxiosOutcome,
        let s' := step b opts (run b opts s evs) (AxiosSettles p o) in
        proxy s' = Some None
        /\ started s' = S p
        /\ isPending s' p = false
        /\ In (LoginSettled p) (history s')).
Proof.
  intros Hreach Hidle Hns HN Hconc p.
  destruct (reachable_invariant b opts s Hreach) as [[Hpend Hsett] _].
  assert (Hfresh : forall q d, In (q, d) (pending s) -> q <> p)
    by (intros q d Hq; apply Hpend in Hq; unfold p; lia).
  assert (Hon : headlessLogin opts <> None).
  { intros Hoff. unfold triggerCount in HN.
    destruct (two_passing_split _ _ HN) as (evs1 & ev & evs2 & Heq & Hex & Hev).
    pose proof (Hconc evs1 ev evs2 Heq Hex Hev) as Hp.
    unfold noSettle in Hns. rewrite Heq, forallb_app in Hns.
    apply andb_prop in Hns as [Hns1 _].
    destruct (burst_login_off b opts evs1 s Hoff Hidle Hns1) as [_ Hsame].
    unfold isPending in Hp. rewrite Hsame in Hp.
    apply existsb_exists in Hp as ([q d] & Hin & Hq).
    apply Nat.eqb_eq in Hq. simpl in Hq. subst q.
    exact (Hfresh _ _ Hin eq_refl). }
  assert (Htrig : existsb (triggersRefresh b opts) evs = true)
    by (apply existsb_filter_length; unfold triggerCount in HN; lia).
  pose proof (burst_while_idle b opts evs s Hidle Hon Hns) as Hburst.
  simpl in Hburst. rewrite Htrig in Hburst.
  destruct Hburst as (_ & Hpx & Hst & Hp).
  split; [exact Hst|]. split.
  - intros evs1 evs2 -> Htrig1 s1. unfold noSettle in Hns.
    rewrite forallb_app in Hns. apply andb_prop in Hns as [Hns1 _].
    pose proof (burst_while_idle b opts evs1 s Hidle Hon Hns1) as H1.
    simpl in H1. rewrite Htrig1 in H1. destruct H1 as (Hsett1 & Hpx1 & Hst1 & Hp1).
    repeat split; try assumption.
    + unfold isPending. subst s1. rewrite Hp1, existsb_app. simpl.
      fold p. now rewrite Nat.eqb_refl, orb_true_r.
    + intros Hin. apply Hsett1, Hsett in Hin. unfold p in Hin. lia.
  - intros o s'. subst s'. simpl. unfold onAxiosSettled.
    rewrite Hp, (callerOf_new _ _ _ Hfresh).
    assert (Hreach' : Reachable b opts (run b opts s evs)).
    { destruct Hreach as [evs0 ->]. exists (evs0 ++ evs). now rewrite run_app. }
    destruct (reachable_invariant b opts _ Hreach') as [_ (_ & Hpark & _)].
    rewrite resumeParked_nobody by exact Hpark. simpl.
    repeat split.
    + exact Hst.
    + unfold isPending. simpl. apply not_pending_after_removal.
    + apply in_or_app. right. now left.
Qed.

(** A run that meets the premises of C2: after the startup login, two
    responses with status 401 arrive before the refresh settles. *)
Lemma C2_singleflight_witness :
  let s := run Modular loginOn (configureServer Modular loginOn)
             [AxiosSettles 0 (AxiosResponse (withSetCookie ["session=abc"]))] in
  let evs := [ProxyRes (Some 401%Z) noHeaders; ProxyRes (Some 401%Z) noHeaders] in
  started (run Modular loginOn s evs) = 2
  /\ (forall evs1 evs2,
        evs = evs1 ++ evs2 ->
        existsb (triggersRefresh Modular loginOn) evs1 = true ->
        let s1 := run Modular loginOn s evs1 in
        proxy s1 = Some (Some 1)
        /\ started s1 = 2
        /\ isPending s1 1 = true
        /\ ~ In (LoginSettled 1) (history s1))
  /\ (forall o : AxiosOutcome,
        let s' := step Modular loginOn (run Modular loginOn s evs)
                    (AxiosSettles 1 o) in
        proxy s' = Some None
        /\ started s' = 2
        /\ isPending s' 1 = false
        /\ In (LoginSettled 1) (history s')).
Proof.
  apply (C2_singleflight Modular loginOn
           (run Modular loginOn (configureServer Modular loginOn)
              [AxiosSettles 0 (AxiosResponse (withSetCookie ["session=abc"]))])
           [ProxyRes (Some 401%Z) noHeaders; ProxyRes (Some 401%Z) noHeaders]).
  - exists [AxiosSettles 0 (AxiosResponse (withSetCookie ["session=abc"]))].
    reflexivity.
  - reflexivity.
  - reflexivity.
  - vm_compute. lia.
  - intros evs1 ev evs2 Heq Hex Hev.
    destruct evs1 as [|e1 [|e2 [|e3 evs1]]]; simpl in Heq.
    + discriminate.
    + injection Heq as <- <- <-. reflexivity.
    + injection Heq as _ _ Heq. discriminate.
    + injection Heq as _ _ Heq. discriminate.
Defined.

(** * Further properties of the code *)

(** ** [storeCookies]: what a line contributes *)

Lemma firstSegment_cons (c : ascii) (rest : string) :
  firstSegment (String c rest)
  = if Ascii.eqb c ";" then EmptyString else String c (firstSegment rest).
Proof.
  unfold firstSegment. simpl. destruct (Ascii.eqb c ";"); [reflexivity|].
  pose proof (split_not_nil ";" rest).
  destruct (Js.split ";" rest); [congruence | reflexivity].
Qed.

Lemma firstSegment_without_semicolon (line : string) :
  Js.indexOf ";" (firstSegment line) = (-1)%Z.
Proof.
  induction line as [|c line IH]; [reflexivity|].
  rewrite firstSegment_cons. destruct (Ascii.eqb c ";") eqn:E; [reflexivity|].
  apply indexOf_cons_absent. split; assumption.
Qed.

Lemma firstSegment_idempotent (line : string) :
  firstSegment (firstSegment line) = firstSegment line.
Proof.
  unfold firstSegment at 1.
  now rewrite (split_absent _ _ (firstSegment_without_semicolon line)).
Qed.

(** Both loop bodies read the line through its first segment only. *)
Lemma storeLine_reads_first_segment (b : Build) (jar : CookieJar)
  (l1 l2 : string) :
  firstSegment l1 = firstSegment l2 ->
  match b with
  | Modular => CookieUtils.storeLine jar l1 = CookieUtils.storeLine jar l2
  | AllInOne => Index.storeLine jar l1 = Index.storeLine jar l2
  end.
Proof.
  intros H. destruct b.
  - unfold CookieUtils.storeLine. now rewrite !firstSegment_nth, H.
  - unfold Index.storeLine. now rewrite !firstSegment_nth, H.
Qed.

(** The array form of [storeCookies] is its loop. *)
Lemma storeCookies_cons (b : Build) (jar : CookieJar) (line : string)
  (lines : list string) :
  storeCookies b jar (RawArray (line :: lines))
  = match storeCookies b jar (RawArray [line]) with
    | (jar', Js.Normal) => storeCookies b jar' (RawArray lines)
    | (jar', Js.Abrupt e) => (jar', Js.Abrupt e)
    end.
Proof.
  destruct b; simpl.
  - unfold CookieUtils.storeCookies. simpl.
    destruct (CookieUtils.storeLine jar line) as [jar' [|e]]; reflexivity.
  - unfold Index.storeCookies. simpl.
    destruct (Index.storeLine jar line) as [jar' [|e]]; reflexivity.
Qed.

Lemma storeCookies_nil (b : Build) (jar : CookieJar) :
  storeCookies b jar (RawArray []) = (jar, Js.Normal).
Proof. destruct b; reflexivity. Qed.

Lemma storeCookies_app (b : Build) (jar : CookieJar) (l1 l2 : list string) :
  storeCookies b jar (RawArray (l1 ++ l2))
  = match storeCookies b jar (RawArray l1) with
    | (jar', Js.Normal) => storeCookies b jar' (RawArray l2)
    | (jar', Js.Abrupt e) => (jar', Js.Abrupt e)
    end.
Proof.
  revert jar. induction l1 as [|line l1 IH]; intros jar.
  - now rewrite storeCookies_nil.
  - simpl app. rewrite (storeCookies_cons b jar line (l1 ++ l2)),
                       (storeCookies_cons b jar line l1).
    destruct (storeCookies b jar (RawArray [line])) as [jar' [|e]];
      [apply IH | reflexivity].
Qed.

Lemma storeCookies_one_line (b : Build) (jar : CookieJar) (line : string) :
  storeCookies b jar (RawArray [line])
  = match b with
    | Modular => CookieUtils.storeLine jar line
    | AllInOne => Index.storeLine jar line
    end.
Proof.
  destruct b; simpl.
  - unfold CookieUtils.storeCookies. simpl.
    destruct (CookieUtils.storeLine jar line) as [jar' [|e]]; reflexivity.
  - unfold Index.storeCookies. simpl.
    destruct (Index.storeLine jar line) as [jar' [|e]]; reflexivity.
Qed.

(** X1.  A Set-Cookie line whose first segment is empty or begins with [=]
    has no name; both copies of [storeCookies] pass over it.  A header that
    is absent, the empty string, the empty array, or made of such lines only
    leaves the jar as it is and throws nothing. *)
Theorem X1_storeCookies_passes_over_nameless_lines (b : Build)
  (jar : CookieJar) (raw : RawCookies) :
  match linesOf raw with
  | Some lines => forallb skippedLine lines = true
  | None => True
  end ->
  storeCookies b jar raw = (jar, Js.Normal).
Proof.
  assert (Hline : forall line, skippedLine line = true ->
             storeCookies b jar (RawArray [line]) = (jar, Js.Normal)).
  { intros line H. rewrite storeCookies_one_line. unfold skippedLine in H.
    destruct (Z.eq_dec (Js.indexOf "=" (firstSegment line)) (-1)) as [Hno|Hyes].
    - rewrite Hno in H. rewrite orb_false_r in H.
      destruct b.
      + rewrite (utils_storeLine_without_equals jar line Hno).
        destruct (firstSegment line); [reflexivity | discriminate].
      + apply (index_storeLine_without_equals jar line Hno).
    - pose proof (indexOf_lower_bound "=" (firstSegment line)).
      destruct (indexOf_found "=" (firstSegment line)) as (a & rest & Hseg & Ha);
        [lia|].
      assert (a = EmptyString) as ->.
      { rewrite Hseg in H. rewrite (indexOf_at_first _ _ _ Ha) in H.
        destruct a as [|c a]; [reflexivity|]. simpl in H. discriminate. }
      destruct b.
      + now rewrite (utils_storeLine_with_equals jar line _ rest Hseg Ha).
      + now rewrite (index_storeLine_with_equals jar line _ rest Hseg Ha). }
  intros H.
  assert (Harr : forall lines, forallb skippedLine lines = true ->
             storeCookies b jar (RawArray lines) = (jar, Js.Normal)).
  { induction lines as [|line lines IH]; intros Hall.
    - apply storeCookies_nil.
    - simpl in Hall. apply andb_prop in Hall as [H1 H2].
      rewrite storeCookies_cons, (Hline line H1). now apply IH. }
  destruct raw as [|str|lines]; simpl in H.
  - destruct b; reflexivity.
  - destruct str as [|c str]; [destruct b; reflexivity|]. simpl in H.
    rewrite <- (Harr [String c str] H). destruct b; reflexivity.
  - now apply Harr.
Qed.

Lemma X1_storeCookies_passes_over_nameless_lines_witness :
  storeCookies Modular [("sid", "1")]
    (RawArray [""; "=orphan; Path=/"; ";HttpOnly"; "; Secure"])
  = ([("sid", "1")], Js.Normal).
Proof.
  apply (X1_storeCookies_passes_over_nameless_lines Modular [("sid", "1")]
           (RawArray [""; "=orphan; Path=/"; ";HttpOnly"; "; Secure"])).
  reflexivity.
Defined.

(** X2.  Everything after the first [;] of a Set-Cookie line (Domain, Path,
    Expires, flags) is discarded before anything is looked at: merging the
    lines and merging their first segments give the same jar and the same
    completion, in both copies. *)
Theorem X2_storeCookies_discards_attributes (b : Build) (jar : CookieJar)
  (lines : list string) :
  storeCookies b jar (RawArray lines)
  = storeCookies b jar (RawArray (map firstSegment lines)).
Proof.
  revert jar. induction lines as [|line lines IH]; intros jar; [reflexivity|].
  simpl map.
  rewrite (storeCookies_cons b jar line lines),
          (storeCookies_cons b jar (firstSegment line) (map firstSegment lines)),
          !storeCookies_one_line.
  pose proof (storeLine_reads_first_segment b jar (firstSegment line) line
                (firstSegment_idempotent line)) as H.
  destruct b; rewrite H.
  - destruct (CookieUtils.storeLine jar line) as [jar' [|e]];
      [apply IH | reflexivity].
  - destruct (Index.storeLine jar line) as [jar' [|e]];
      [apply IH | reflexivity].
Qed.

Lemma keys_set_keeps (jar : CookieJar) (k v name : string) :
  In name (JsMap.keys jar) -> In name (JsMap.keys (JsMap.set jar k v)).
Proof.
  intros H. destruct (in_dec string_dec k (JsMap.keys jar)) as [Hin|Hout].
  - now rewrite keys_set_in.
  - rewrite keys_set_new by exact Hout. apply in_or_app. now left.
Qed.

Lemma storeCookies_keeps_names (b : Build) (jar : CookieJar) (raw : RawCookies)
  (name : string) :
  In name (JsMap.keys jar) ->
  In name (JsMap.keys (fst (storeCookies b jar raw))).
Proof.
  assert (Harr : forall lines j,
             In name (JsMap.keys j) ->
             In name (JsMap.keys (fst (storeCookies b j (RawArray lines))))).
  { induction lines as [|line lines IH]; intros j Hj.
    - now rewrite storeCookies_nil.
    - rewrite storeCookies_cons, storeCookies_one_line.
      pose proof (storeLine_sets_or_skips b j line) as H. simpl in H.
      destruct b.
      + destruct (CookieUtils.storeLine j line) as [j' [|e]]; simpl in H;
          [apply IH|simpl];
          (destruct H as [->|(k & v & ->)];
           [exact Hj | now apply keys_set_keeps]).
      + destruct (Index.storeLine j line) as [j' [|e]]; simpl in H;
          [apply IH|simpl];
          (destruct H as [->|(k & v & ->)];
           [exact Hj | now apply keys_set_keeps]). }
  intros Hj. destruct raw as [|str|lines].
  - destruct b; exact Hj.
  - destruct str as [|c str]; [destruct b; exact Hj|].
    replace (storeCookies b jar (RawString (String c str)))
      with (storeCookies b jar (RawArray [String c str]))
      by (destruct b; reflexivity).
    now apply Harr.
  - now apply Harr.
Qed.

(** X3.  [storeCookies] has no way to delete: whatever header it is given,
    and whether it returns or throws, every name that was in the jar is
    still in it afterwards. *)
Theorem X3_storeCookies_never_removes_a_name (b : Build) (jar : CookieJar)
  (raw : RawCookies) :
  incl (JsMap.keys jar) (JsMap.keys (fst (storeCookies b jar raw))).
Proof. intros name. apply storeCookies_keeps_names. Qed.

Lemma X3_storeCookies_never_removes_a_name_witness :
  In "sid"
     (JsMap.keys
        (fst (storeCookies Modular [("sid", "1"); ("theme", "dark")]
                (RawArray ["sid=; Max-Age=0"; "HttpOnly"])))).
Proof.
  apply (X3_storeCookies_never_removes_a_name Modular
           [("sid", "1"); ("theme", "dark")]
           (RawArray ["sid=; Max-Age=0"; "HttpOnly"]) "sid").
  simpl. auto.
Defined.

(** X4.  Merging an array of lines is merging its front part and then, on
    the jar that leaves, its back part; if the front part throws, the back
    part is never looked at and the jar stays as the throw left it. *)
Theorem X4_storeCookies_merges_in_order (b : Build) (jar : CookieJar)
  (front back : list string) :
  storeCookies b jar (RawArray (front ++ back))
  = match storeCookies b jar (RawArray front) with
    | (jar', Js.Normal) => storeCookies b jar' (RawArray back)
    | (jar', Js.Abrupt e) => (jar', Js.Abrupt e)
    end.
Proof. apply storeCookies_app. Qed.

Lemma utils_storeLine_completion (jar : CookieJar) (line : string) :
  snd (CookieUtils.storeLine jar line)
  = if bareSegment line then Js.Abrupt Js.trimOfUndefined else Js.Normal.
Proof.
  unfold bareSegment.
  destruct (Z.eq_dec (Js.indexOf "=" (firstSegment line)) (-1)) as [Hno|Hyes].
  - rewrite (utils_storeLine_without_equals jar line Hno), Hno.
    destruct (firstSegment line); reflexivity.
  - pose proof (indexOf_lower_bound "=" (firstSegment line)).
    destruct (indexOf_found "=" (firstSegment line)) as (a & rest & Hseg & Ha);
      [lia|].
    rewrite (utils_storeLine_with_equals jar line a rest Hseg Ha).
    apply Z.eqb_neq in Hyes. rewrite Hyes, andb_false_r.
    destruct (Js.truthy (Some a)); reflexivity.
Qed.

(** X5.  Which headers make [storeCookies] throw.  The copy in index.ts
    never throws.  The copy in cookieUtils.ts throws, always the TypeError of
    [undefined.trim()], exactly when some line has a first segment that is
    not empty and holds no [=]. *)
Theorem X5_storeCookies_throws_on_bare_segments_only :
  (forall (jar : CookieJar) (raw : RawCookies),
      snd (Index.storeCookies jar raw) = Js.Normal)
  /\ (forall (jar : CookieJar) (raw : RawCookies),
        snd (CookieUtils.storeCookies jar raw)
        = match linesOf raw with
          | Some lines =>
              if existsb bareSegment lines
              then Js.Abrupt Js.trimOfUndefined
              else Js.Normal
          | None => Js.Normal
          end).
Proof.
  split; [apply index_storeCookies_completes|].
  intros jar raw. unfold CookieUtils.storeCookies.
  destruct (linesOf raw) as [lines|]; [|reflexivity].
  revert jar. induction lines as [|line lines IH]; intros jar; simpl;
    [reflexivity|].
  pose proof (utils_storeLine_completion jar line) as H.
  destruct (CookieUtils.storeLine jar line) as [jar' [|e]]; simpl in H.
  - destruct (bareSegment line); [discriminate|]. apply IH.
  - destruct (bareSegment line); [|discriminate]. simpl. exact H.
Qed.

(** ** [trim] and what enters the jar *)

Lemma trimStart_head (s : string) :
  Js.trimStart s = EmptyString
  \/ exists c rest, Js.trimStart s = String c rest /\ Js.isWhiteSpace c = false.
Proof.
  induction s as [|c s IH]; simpl; [now left|].
  destruct (Js.isWhiteSpace c) eqn:E; [exact IH|].
  right. now exists c, s.
Qed.

Lemma trimEnd_head (c : ascii) (rest : string) :
  Js.isWhiteSpace c = false ->
  exists rest', Js.trimEnd (String c rest) = String c rest'.
Proof.
  intros Hc. simpl. destruct (Js.trimEnd rest) as [|d t].
  - rewrite Hc. now exists EmptyString.
  - now exists (String d t).
Qed.

Lemma trimEnd_idempotent (s : string) : Js.trimEnd (Js.trimEnd s) = Js.trimEnd s.
Proof.
  induction s as [|c s IH]; [reflexivity|].
  simpl. destruct (Js.trimEnd s) as [|d t] eqn:Ht.
  - destruct (Js.isWhiteSpace c) eqn:Hc; [reflexivity|]. simpl. now rewrite Hc.
  - change (Js.trimEnd (String c (String d t))) with
      (match Js.trimEnd (String d t) with
       | EmptyString =>
           if Js.isWhiteSpace c then EmptyString else String c EmptyString
       | String _ _ as t' => String c t'
       end).
    now rewrite IH.
Qed.

(** [trim] returns a string that [trim] leaves alone. *)
Lemma trim_idempotent (s : string) : Js.trim (Js.trim s) = Js.trim s.
Proof.
  unfold Js.trim.
  destruct (trimStart_head s) as [->|(c & rest & -> & Hc)]; [reflexivity|].
  destruct (trimEnd_head c rest Hc) as [rest' Hr]. rewrite Hr.
  simpl Js.trimStart. rewrite Hc, <- Hr. apply trimEnd_idempotent.
Qed.

Lemma in_set (jar : CookieJar) (k v k' v' : string) :
  In (k, v) (JsMap.set jar k' v') -> (k, v) = (k', v') \/ In (k, v) jar.
Proof.
  induction jar as [|[k0 v0] jar IH]; simpl.
  - intros [H|[]]. left. congruence.
  - destruct (String.eqb k0 k'); simpl.
    + intros [H|H]; [left; congruence | right; now right].
    + intros [H|H]; [right; now left|].
      destruct (IH H) as [H'|H']; [now left | right; now right].
Qed.

Lemma storeLine_sets_trimmed (b : Build) (jar : CookieJar) (line : string) :
  let step := match b with
              | Modular => CookieUtils.storeLine
              | AllInOne => Index.storeLine
              end in
  fst (step jar line) = jar
  \/ exists n x, fst (step jar line) = JsMap.set jar (Js.trim n) (Js.trim x).
Proof.
  destruct b; simpl.
  - unfold CookieUtils.storeLine. rewrite firstSegment_nth.
    destruct (nth_error (Js.split "=" (firstSegment line)) 0) as [n|]; [|now left].
    destruct (Js.truthy (Some n)); [|now left].
    destruct (nth_error (Js.split "=" (firstSegment line)) 1) as [v|]; [|now left].
    right. now exists n, v.
  - unfold Index.storeLine. rewrite firstSegment_nth.
    destruct (Js.indexOf "=" (firstSegment line) >? 0)%Z; [|now left].
    right. eexists _, _. reflexivity.
Qed.

Lemma one_line_sets_trimmed (b : Build) (jar : CookieJar) (line : string) :
  fst (storeCookies b jar (RawArray [line])) = jar
  \/ exists n x,
       fst (storeCookies b jar (RawArray [line]))
       = JsMap.set jar (Js.trim n) (Js.trim x).
Proof.
  rewrite storeCookies_one_line.
  destruct b;
    [apply (storeLine_sets_trimmed Modular) | apply (storeLine_sets_trimmed AllInOne)].
Qed.

(** X6.  Whatever a merge puts into the jar is trimmed: after
    [storeCookies], in either copy, every entry of the jar was there before
    or has a name and a value without white space at either end. *)
Theorem X6_storeCookies_stores_trimmed_pairs (b : Build) (jar : CookieJar)
  (raw : RawCookies) (k v : string) :
  In (k, v) (fst (storeCookies b jar raw)) ->
  In (k, v) jar \/ (Js.trim k = k /\ Js.trim v = v).
Proof.
  assert (Harr : forall lines j,
             In (k, v) (fst (storeCookies b j (RawArray lines))) ->
             In (k, v) j \/ (Js.trim k = k /\ Js.trim v = v)).
  { induction lines as [|line lines IH]; intros j Hin.
    - rewrite storeCookies_nil in Hin. now left.
    - rewrite storeCookies_cons in Hin.
      pose proof (one_line_sets_trimmed b j line) as H.
      assert (Hstep : In (k, v) (fst (storeCookies b j (RawArray [line]))) ->
                      In (k, v) j \/ (Js.trim k = k /\ Js.trim v = v)).
      { intros Hkv. destruct H as [H|(n & x & H)]; rewrite H in Hkv;
          [now left|].
        apply in_set in Hkv as [[= -> ->]|Hkv]; [right | now left].
        split; apply trim_idempotent. }
      destruct (storeCookies b j (RawArray [line])) as [j' [|e]]; simpl in *.
      + destruct (IH _ Hin) as [Hj'|Ht]; [|now right]. exact (Hstep Hj').
      + exact (Hstep Hin). }
  destruct raw as [|str|lines].
  - intros H. left. destruct b; exact H.
  - destruct str as [|c str]; [intros H; left; destruct b; exact H|].
    replace (storeCookies b jar (RawString (String c str)))
      with (storeCookies b jar (RawArray [String c str]))
      by (destruct b; reflexivity).
    apply Harr.
  - apply Harr.
Qed.

Lemma X6_storeCookies_stores_trimmed_pairs_witness :
  In ("sid", "abc") [("old", " x ")]
  \/ (Js.trim "sid" = "sid" /\ Js.trim "abc" = "abc").
Proof.
  apply (X6_storeCookies_stores_trimmed_pairs AllInOne [("old", " x ")]
           (RawString "  sid =  abc  ; Path=/") "sid" "abc").
  simpl. auto.
Defined.

(** ** From the jar to a Cookie header and back *)

(** A line [name=value] without [;] and with a single [=] is stored under
    its trimmed name with its trimmed value, by either copy. *)
Lemma storeCookies_pair_line (b : Build) (jar : CookieJar) (n v : string) :
  Js.indexOf ";" n = (-1)%Z -> Js.indexOf "=" n = (-1)%Z -> n <> EmptyString ->
  Js.indexOf ";" v = (-1)%Z -> Js.indexOf "=" v = (-1)%Z ->
  storeCookies b jar (RawArray [(n ++ "=" ++ v)%string])
  = (JsMap.set jar (Js.trim n) (Js.trim v), Js.Normal).
Proof.
  intros Hn1 Hn2 Hne Hv1 Hv2.
  assert (Hseg : firstSegment (n ++ "=" ++ v) = (n ++ String "=" v)%string).
  { unfold firstSegment. rewrite split_absent; [reflexivity|].
    apply indexOf_append_absent; [exact Hn1|].
    simpl. rewrite Hv1. reflexivity. }
  assert (Htruthy : Js.truthy (Some n) = true)
    by (destruct n; [congruence | reflexivity]).
  rewrite storeCookies_one_line. destruct b.
  - rewrite (utils_storeLine_with_equals jar _ n v Hseg Hn2), Htruthy.
    now rewrite (split_absent _ _ Hv2).
  - now rewrite (index_storeLine_with_equals jar _ n v Hseg Hn2), Htruthy.
Qed.

Lemma set_new (jar : CookieJar) (k v : string) :
  ~ In k (JsMap.keys jar) -> JsMap.set jar k v = jar ++ [(k, v)].
Proof.
  unfold JsMap.keys. induction jar as [|[k' v'] jar IH]; simpl; [reflexivity|].
  intros H. destruct (String.eqb k' k) eqn:E.
  - apply String.eqb_eq in E. subst. tauto.
  - f_equal. apply IH. tauto.
Qed.

Lemma plainJar_cons (k v : string) (jar : CookieJar) :
  plainJar ((k, v) :: jar) = true ->
  (Js.indexOf ";" k = (-1)%Z /\ Js.indexOf "=" k = (-1)%Z /\ Js.trim k = k)
  /\ k <> EmptyString
  /\ (Js.indexOf ";" v = (-1)%Z /\ Js.indexOf "=" v = (-1)%Z /\ Js.trim v = v)
  /\ plainJar jar = true.
Proof.
  unfold plainJar. simpl. intros H.
  apply andb_prop in H as [H Hrest]. apply andb_prop in H as [H Hv].
  apply andb_prop in H as [Hk Hne].
  repeat split; try (now apply plainToken_unfold); try exact Hrest.
  intros ->. discriminate.
Qed.

(** The header [jarToString] renders, cut at its [;]: the first pair as it
    is, every further pair behind one space. *)
Lemma split_jarToString (jar : CookieJar) :
  plainJar jar = true ->
  Js.split ";" (CookieUtils.jarToString jar)
  = match jar with
    | [] => [EmptyString]
    | kv :: rest =>
        (fst kv ++ "=" ++ snd kv)%string
        :: map (fun x => String " " (fst x ++ "=" ++ snd x)) rest
    end.
Proof.
  induction jar as [|[k v] rest IH]; intros Hp; [reflexivity|].
  apply plainJar_cons in Hp as ((Hk1 & Hk2 & _) & _ & (Hv1 & Hv2 & _) & Hrest).
  assert (Hpair : Js.indexOf ";" (k ++ "=" ++ v) = (-1)%Z).
  { apply indexOf_append_absent; [exact Hk1|]. simpl. now rewrite Hv1. }
  destruct rest as [|kv2 rest2].
  - change (CookieUtils.jarToString [(k, v)]) with (k ++ "=" ++ v)%string.
    now rewrite (split_absent _ _ Hpair).
  - specialize (IH Hrest).
    replace (CookieUtils.jarToString ((k, v) :: kv2 :: rest2))
      with ((k ++ "=" ++ v)
            ++ String ";" (String " " (CookieUtils.jarToString (kv2 :: rest2))))%string.
    + rewrite (split_at_first _ _ _ Hpair). simpl fst. simpl snd. f_equal.
      change (Js.split ";" (String " " (CookieUtils.jarToString (kv2 :: rest2))))
        with (match Js.split ";" (CookieUtils.jarToString (kv2 :: rest2)) with
              | [] => [String " " EmptyString]
              | seg :: segs => String " " seg :: segs
              end).
      rewrite IH. reflexivity.
    + unfold CookieUtils.jarToString, Js.join, JsMap.entries.
      simpl map. cbn [String.concat].
      destruct kv2 as [k2 v2]. simpl fst. simpl snd.
      now rewrite !append_assoc.
Qed.

Lemma trim_after_space (s : string) : Js.trim (String " " s) = Js.trim s.
Proof. reflexivity. Qed.

Lemma merge_spaced_pairs (b : Build) (rest acc : CookieJar) :
  plainJar rest = true ->
  NoDup (JsMap.keys (acc ++ rest)) ->
  storeCookies b acc
    (RawArray (map (fun x => String " " (fst x ++ "=" ++ snd x)) rest))
  = (acc ++ rest, Js.Normal).
Proof.
  set (spaced := fun x : string * string => String " " (fst x ++ "=" ++ snd x)).
  revert acc. induction rest as [|[k v] rest IH]; intros acc Hp Hnd.
  - simpl. rewrite storeCookies_nil, app_nil_r. reflexivity.
  - apply plainJar_cons in Hp as ((Hk1 & Hk2 & Hk3) & Hne & (Hv1 & Hv2 & Hv3) & Hrest).
    change (map spaced ((k, v) :: rest))
      with ((String " " k ++ "=" ++ v)%string :: map spaced rest).
    rewrite storeCookies_cons.
    rewrite (storeCookies_pair_line b acc (String " " k) v).
    + rewrite trim_after_space, Hk3, Hv3.
      assert (Hout : ~ In k (JsMap.keys acc)).
      { unfold JsMap.keys in *. rewrite map_app in Hnd. simpl in Hnd.
        apply NoDup_remove_2 in Hnd. intros Hin. apply Hnd.
        apply in_or_app. now left. }
      rewrite (set_new acc k v Hout).
      rewrite (IH (acc ++ [(k, v)]) Hrest); rewrite <- app_assoc;
        [reflexivity | exact Hnd].
    + apply indexOf_cons_absent. split; [reflexivity | exact Hk1].
    + apply indexOf_cons_absent. split; [reflexivity | exact Hk2].
    + discriminate.
    + exact Hv1.
    + exact Hv2.
Qed.

(** X7.  Round trip.  Take a jar with distinct, non-empty names whose names
    and values hold no [;], no [=] and no outer white space.  Render it with
    [jarToString], cut the header at its [;] and merge the pieces into an
    empty jar with either copy of [storeCookies]: the result is the jar,
    entries in the same order, and nothing is thrown. *)
Theorem X7_jarToString_storeCookies_round_trip (b : Build) (jar : CookieJar) :
  plainJar jar = true ->
  NoDup (JsMap.keys jar) ->
  storeCookies b JsMap.empty
    (RawArray (Js.split ";" (CookieUtils.jarToString jar)))
  = (jar, Js.Normal).
Proof.
  intros Hp Hnd. rewrite (split_jarToString jar Hp).
  destruct jar as [|[k v] rest]; [destruct b; reflexivity|].
  pose proof Hp as Hp'.
  apply plainJar_cons in Hp' as ((Hk1 & Hk2 & Hk3) & Hne & (Hv1 & Hv2 & Hv3) & Hrest).
  change (fst (k, v) ++ "=" ++ snd (k, v))%string with (k ++ "=" ++ v)%string.
  rewrite storeCookies_cons.
  rewrite (storeCookies_pair_line b JsMap.empty k v Hk1 Hk2 Hne Hv1 Hv2).
  rewrite Hk3, Hv3.
  apply (merge_spaced_pairs b rest [(k, v)] Hrest Hnd).
Qed.

Lemma X7_jarToString_storeCookies_round_trip_witness :
  storeCookies Modular JsMap.empty
    (RawArray (Js.split ";"
                 (CookieUtils.jarToString [("sid", "abc"); ("theme", "dark"); ("lang", "")])))
  = ([("sid", "abc"); ("theme", "dark"); ("lang", "")], Js.Normal).
Proof.
  apply (X7_jarToString_storeCookies_round_trip Modular
           [("sid", "abc"); ("theme", "dark"); ("lang", "")]).
  - reflexivity.
  - repeat constructor; simpl; intuition discriminate.
Defined.

(** ** The outbound Cookie header, continued *)

Lemma append_nil_r (s : string) : (s ++ "")%string = s.
Proof. induction s as [|c s IH]; simpl; [reflexivity | now rewrite IH]. Qed.

Lemma jarToString_cons (k v : string) (rest : CookieJar) :
  CookieUtils.jarToString ((k, v) :: rest)
  = ((k ++ "=" ++ v)
     ++ match rest with
        | [] => EmptyString
        | _ :: _ => "; " ++ CookieUtils.jarToString rest
        end)%string.
Proof.
  destruct rest as [|[k2 v2] rest].
  - change (CookieUtils.jarToString [(k, v)]) with (k ++ "=" ++ v)%string.
    now rewrite append_nil_r.
  - reflexivity.
Qed.

(** Only the empty jar renders as the empty string. *)
Lemma jarToString_empty_iff (jar : CookieJar) :
  CookieUtils.jarToString jar = EmptyString <-> jar = [].
Proof.
  split; [|intros ->; reflexivity].
  destruct jar as [|[k v] rest]; [reflexivity|].
  rewrite jarToString_cons. destruct k; discriminate.
Qed.

Lemma combinedCookies_join (existingCookies : option string) (jar : CookieJar) :
  combinedCookies existingCookies jar
  = joinSkippingEmpty (match existingCookies with Some e => e | None => "" end)
      (CookieUtils.jarToString jar).
Proof.
  unfold combinedCookies, filterBoolean, Js.join.
  destruct existingCookies as [[|c e]|];
    destruct (CookieUtils.jarToString jar) as [|d p]; reflexivity.
Qed.

(** X8.  The [proxyReq] hook leaves the request as it came exactly when
    there is nothing to send: [setHeader] is not called if and only if the
    request has no Cookie header of its own (or an empty one) and the jar is
    empty.  A request arriving before any cookie was stored keeps its own
    header untouched. *)
Theorem X8_hook_sets_no_header_iff_nothing_to_send
  (existingCookies : option string) (jar : CookieJar) :
  (proxyReqSetHeader existingCookies jar = None
   <-> Js.truthy existingCookies = false /\ jar = [])
  /\ cookieHeaderAfter existingCookies [] = existingCookies.
Proof.
  split.
  - unfold proxyReqSetHeader. rewrite combinedCookies_join.
    rewrite <- (jarToString_empty_iff jar).
    destruct existingCookies as [[|c e]|];
      destruct (CookieUtils.jarToString jar) as [|d p]; simpl;
      split; try discriminate; try (intros [? ?]; discriminate); auto.
  - unfold cookieHeaderAfter, proxyReqSetHeader. rewrite combinedCookies_join.
    destruct existingCookies as [[|c e]|]; reflexivity.
Qed.

Lemma occursIn_extend (x s before after : string) :
  occursIn x s -> occursIn x (before ++ s ++ after).
Proof.
  intros (b1 & a1 & ->). exists (before ++ b1)%string, (a1 ++ after)%string.
  now rewrite !append_assoc.
Qed.

Lemma occursIn_jarToString (jar : CookieJar) (k v : string) :
  In (k, v) jar -> occursIn (k ++ "=" ++ v) (CookieUtils.jarToString jar).
Proof.
  induction jar as [|[k0 v0] rest IH]; [intros []|].
  intros [[= -> ->]|Hin]; rewrite jarToString_cons.
  - exists EmptyString. eexists. reflexivity.
  - destruct rest as [|kv rest]; [destruct Hin|].
    destruct (IH Hin) as (b1 & a1 & Heq). rewrite Heq.
    exists ((k0 ++ "=" ++ v0) ++ "; " ++ b1)%string, a1.
    now rewrite !append_assoc.
Qed.

(** X9.  No cookie of the jar is left out of the value the hook composes:
    for every entry of the jar the hook calls [setHeader], and the argument of
    the call contains the entry as [name=value] and begins with the Cookie
    header the request came with. *)
Theorem X9_setHeader_argument_holds_every_jar_cookie
  (existingCookies : option string) (jar : CookieJar) (k v : string) :
  In (k, v) jar ->
  exists header,
    proxyReqSetHeader existingCookies jar = Some header
    /\ occursIn (k ++ "=" ++ v) header
    /\ Js.startsWith header
         (match existingCookies with Some e => e | None => "" end) = true.
Proof.
  intros Hin. pose proof (occursIn_jarToString jar k v Hin) as Hocc.
  assert (Hne : CookieUtils.jarToString jar <> EmptyString).
  { intros H. apply jarToString_empty_iff in H. subst. destruct Hin. }
  exists (combinedCookies existingCookies jar).
  unfold proxyReqSetHeader, Js.startsWith.
  rewrite combinedCookies_join.
  destruct (CookieUtils.jarToString jar) as [|d p] eqn:Hj; [congruence|].
  destruct existingCookies as [[|c e]|]; simpl joinSkippingEmpty;
    (split; [reflexivity|]); split.
  - exact Hocc.
  - reflexivity.
  - apply (occursIn_extend _ _ (String c e ++ "; ") EmptyString) in Hocc.
    rewrite append_nil_r, append_assoc in Hocc. exact Hocc.
  - apply prefix_iff. eexists. reflexivity.
  - exact Hocc.
  - reflexivity.
Qed.

Lemma X9_setHeader_argument_holds_every_jar_cookie_witness :
  exists header,
    proxyReqSetHeader (Some "c=3") [("a", "1"); ("b", "2")] = Some header
    /\ occursIn ("b" ++ "=" ++ "2") header
    /\ Js.startsWith header "c=3" = true.
Proof.
  apply (X9_setHeader_argument_holds_every_jar_cookie (Some "c=3")
           [("a", "1"); ("b", "2")] "b" "2").
  simpl. auto.
Defined.

(** ** The path filter, continued *)

(** X10.  A string rule takes whole path segments: once it matches a path
    it matches every path below it, whatever is appended after a [/]. *)
Theorem X10_string_rule_matches_all_sub_paths (p pathname more : string) :
  ruleMatches pathname (RuleString p) = true ->
  ruleMatches (pathname ++ "/" ++ more) (RuleString p) = true.
Proof.
  rewrite !ruleMatches_iff. intros (rest & -> & H).
  exists (rest ++ "/" ++ more)%string. split; [now rewrite append_assoc|].
  right. destruct H as [->|[rest' ->]].
  - now exists more.
  - now exists (rest' ++ "/" ++ more)%string.
Qed.

Lemma X10_string_rule_matches_all_sub_paths_witness :
  ruleMatches ("/api/users" ++ "/" ++ "42/posts") (RuleString "/api") = true.
Proof.
  apply (X10_string_rule_matches_all_sub_paths "/api" "/api/users" "42/posts").
  reflexivity.
Defined.

(** X11.  Writing the string ["/api"] into [apiPaths] narrows what is
    proxied: every path the string rule takes is also taken by the default
    pattern [/^\/api/] that applies when [apiPaths] is left out. *)
Theorem X11_string_api_rule_within_default (pathname : string) :
  filterFunction [RuleString "/api"] pathname = true ->
  filterFunction (apiPaths (normalizeOptions noOptions)) pathname = true.
Proof.
  change (apiPaths (normalizeOptions noOptions))
    with [RuleRegExp defaultApiPattern].
  unfold filterFunction, existsb. rewrite !orb_false_r.
  intros H. apply (ruleMatches_iff pathname (RuleString "/api")) in H.
  destruct H as (rest & -> & _).
  apply defaultApiPattern_iff. now exists rest.
Qed.

Lemma X11_string_api_rule_within_default_witness :
  filterFunction (apiPaths (normalizeOptions noOptions)) "/api/users" = true.
Proof.
  apply (X11_string_api_rule_within_default "/api/users"). reflexivity.
Defined.

(** ** [doHeadlessLogin], continued *)

(** X12.  [doHeadlessLogin] from the end of its axios call on ([net] is
    how that call ended: a response or a rejection; the source sets no
    timeout, and of a call whose axios request never ends nothing is said
    here).  However the axios call ended, the function then finishes without
    throwing.  With [headlessLogin] off, where no axios call is made, it
    changes nothing and logs nothing.  With it on it logs exactly one line, a
    success or a failure under the caller's label; and a success line means
    that [storeCookies] took every Set-Cookie line of the response without
    throwing and that the jar is the result of that merge. *)
Theorem X12_doHeadlessLogin_logs_one_line_once_axios_ended (b : Build) (opts : NormalizedOptions)
  (label : string) (net : AxiosOutcome) (st : Store) :
  snd (doHeadlessLogin b opts label net st) = Js.Normal
  /\ match headlessLogin opts with
     | None => fst (doHeadlessLogin b opts label net st) = st
     | Some _ =>
         exists line,
           logged (fst (doHeadlessLogin b opts label net st))
           = logged st ++ [line]
           /\ ((exists message, line = LoginFailed label message)
               \/ (line = LoginSucceeded label
                   /\ exists headers,
                        net = AxiosResponse headers
                        /\ storeCookies b (jar st) (set_cookie headers)
                           = (jar (fst (doHeadlessLogin b opts label net st)),
                              Js.Normal)))
     end.
Proof.
  split; [apply doHeadlessLogin_never_throws|].
  unfold doHeadlessLogin. destruct (headlessLogin opts) as [cfg|]; [|reflexivity].
  unfold afterAxios, tryCatch. destruct net as [headers|e].
  - unfold andThen, storeCookiesStmt.
    destruct (storeCookies b (jar st) (set_cookie headers)) as [jar' [|e]] eqn:Hs;
      simpl.
    + exists (LoginSucceeded label). split; [reflexivity|]. right.
      split; [reflexivity|]. now exists headers.
    + exists (LoginFailed label (failureMessage b e)). split; [reflexivity|].
      left. now eexists.
  - simpl. exists (LoginFailed label (failureMessage b e)).
    split; [reflexivity|]. left. now eexists.
Qed.

(** X13.  On a response whose Set-Cookie lines all have a first segment
    that is empty, begins with [=] or holds exactly one [=], the
    [doHeadlessLogin] of proxyHandler.ts and the one of index.ts leave the same
    jar, and with [headlessLogin] on each of them logs its success line under
    the caller's label and nothing else. *)
Theorem X13_doHeadlessLogin_copies_leave_the_same_jar
  (opts : NormalizedOptions) (label : string) (headers : IncomingHttpHeaders)
  (st : Store) :
  match linesOf (set_cookie headers) with
  | Some lines => forallb singleEquals lines = true
  | None => True
  end ->
  jar (fst (doHeadlessLogin Modular opts label (AxiosResponse headers) st))
  = jar (fst (doHeadlessLogin AllInOne opts label (AxiosResponse headers) st))
  /\ forall b : Build,
       logged (fst (doHeadlessLogin b opts label (AxiosResponse headers) st))
       = logged st
         ++ (if isSome (headlessLogin opts) then [LoginSucceeded label] else []).
Proof.
  intros H. unfold doHeadlessLogin.
  destruct (headlessLogin opts).
  - unfold afterAxios, tryCatch, andThen, storeCookiesStmt. simpl storeCookies.
    rewrite (storeCookies_copies_agree (jar st) (set_cookie headers) H).
    pose proof (index_storeCookies_completes (jar st) (set_cookie headers)) as Hc.
    split.
    + destruct (Index.storeCookies (jar st) (set_cookie headers)) as [jar' [|e]];
        simpl in Hc; [reflexivity | discriminate].
    + intros [|]; simpl storeCookies;
        rewrite ?(storeCookies_copies_agree (jar st) (set_cookie headers) H);
        destruct (Index.storeCookies (jar st) (set_cookie headers))
          as [jar' [|e]];
        simpl in Hc; try discriminate; reflexivity.
  - split; [reflexivity|]. intros _. simpl. now rewrite app_nil_r.
Qed.

Lemma X13_doHeadlessLogin_copies_leave_the_same_jar_witness :
  jar (fst (doHeadlessLogin Modular loginOn "startup"
              (AxiosResponse
                 (withSetCookie ["sid=abc; Path=/; HttpOnly"; "theme = dark"]))
              emptyStore))
  = jar (fst (doHeadlessLogin AllInOne loginOn "startup"
                (AxiosResponse
                   (withSetCookie ["sid=abc; Path=/; HttpOnly"; "theme = dark"]))
                emptyStore))
  /\ forall b : Build,
       logged (fst (doHeadlessLogin b loginOn "startup"
                      (AxiosResponse
                         (withSetCookie
                            ["sid=abc; Path=/; HttpOnly"; "theme = dark"]))
                      emptyStore))
       = logged emptyStore
         ++ (if isSome (headlessLogin loginOn)
             then [LoginSucceeded "startup"] else []).
Proof.
  apply (X13_doHeadlessLogin_copies_leave_the_same_jar loginOn "startup"
           (withSetCookie ["sid=abc; Path=/; HttpOnly"; "theme = dark"])
           emptyStore).
  reflexivity.
Defined.

(** ** The machine: calls in flight *)

Lemma countObs_snoc (f : Obs -> bool) (h : list Obs) (o : Obs) :
  countObs f (h ++ [o]) = countObs f h + (if f o then 1 else 0).
Proof.
  unfold countObs. rewrite filter_app, length_app. simpl.
  destruct (f o); reflexivity.
Qed.

Section Calls.

Variable b : Build.
Variable opts : NormalizedOptions.

Lemma configureServer_calls :
  oneCallInFlight (configureServer b opts) /\ accounted (configureServer b opts).
Proof.
  unfold configureServer, callDoHeadlessLogin, oneCallInFlight, accounted.
  destruct (headlessLogin opts) as [cfg|]; [destruct b|]; simpl; auto.
Qed.

Lemma onProxyReq_calls (r : ClientRequest) (s : Server) :
  oneCallInFlight s /\ accounted s ->
  oneCallInFlight (onProxyReq r s) /\ accounted (onProxyReq r s).
Proof.
  intros [Hone [Hs Hp]]. unfold onProxyReq.
  destruct (proxy s) as [a|] eqn:Hpx; [|now split].
  assert (Hcompose : oneCallInFlight (composeCookies r s)
                     /\ accounted (composeCookies r s)).
  { unfold oneCallInFlight, accounted, composeCookies. simpl.
    rewrite !countObs_snoc. simpl. rewrite !Nat.add_0_r. now split. }
  destruct (refreshingPromise s) as [g|]; [|exact Hcompose].
  destruct (isPending s g); [|exact Hcompose].
  unfold oneCallInFlight, accounted. simpl. now split.
Qed.

Lemma onProxyRes_calls (statusCode : option Z) (headers : IncomingHttpHeaders)
  (s : Server) :
  oneCallInFlight s /\ accounted s ->
  oneCallInFlight (onProxyRes b opts statusCode headers s)
  /\ accounted (onProxyRes b opts statusCode headers s).
Proof.
  intros [Hone [Hs Hp]]. unfold onProxyRes.
  destruct (proxy s) as [a|] eqn:Hpx; [|now split].
  unfold oneCallInFlight in Hone. rewrite Hpx in Hone.
  destruct (storeCookiesStmt b (set_cookie headers) (store s)) as [st' [|e]].
  - destruct (unauthDetector opts _ headers).
    + destruct a as [p|].
      * unfold oneCallInFlight, accounted. simpl. rewrite Hpx. now split.
      * unfold callDoHeadlessLogin.
        destruct (headlessLogin opts) as [cfg|];
          unfold oneCallInFlight, accounted; simpl;
          rewrite ?countObs_snoc; simpl; rewrite Hone in *; simpl in *;
          rewrite ?countObs_snoc; simpl; repeat split; lia.
    + unfold oneCallInFlight, accounted. simpl. rewrite Hpx. now split.
  - unfold oneCallInFlight, accounted. simpl. rewrite Hpx.
    rewrite !countObs_snoc. simpl. rewrite !Nat.add_0_r. now split.
Qed.

Lemma onAxiosSettled_calls (p : nat) (o : AxiosOutcome) (s : Server) :
  parked s = [] ->
  oneCallInFlight s /\ accounted s ->
  oneCallInFlight (onAxiosSettled b p o s) /\ accounted (onAxiosSettled b p o s).
Proof.
  intros Hpark [Hone [Hs Hp]]. unfold onAxiosSettled.
  destruct (callerOf (pending s) p) as [c|] eqn:Hc; [|now split].
  rewrite resumeParked_nobody
    by (destruct c; [destruct b|]; simpl; exact Hpark).
  assert (Hlist : pending s = [(p, c)]).
  { unfold oneCallInFlight in Hone.
    destruct (proxy s) as [[q|]|]; rewrite Hone in Hc; simpl in Hc;
      try discriminate.
    - destruct (Nat.eqb q p) eqn:E; [|discriminate].
      apply Nat.eqb_eq in E. injection Hc as <-. now subst.
    - destruct p; [|discriminate]. injection Hc as <-. exact Hone. }
  rewrite Hlist in Hp. simpl in Hp.
  unfold oneCallInFlight, accounted.
  destruct c; [destruct b|]; simpl; rewrite Hlist; simpl;
    rewrite Nat.eqb_refl; simpl; rewrite !countObs_snoc; simpl;
    repeat split; lia.
Qed.

Lemma run_calls (evs : list Event) (s : Server) :
  invariant b s -> oneCallInFlight s /\ accounted s ->
  oneCallInFlight (run b opts s evs) /\ accounted (run b opts s evs).
Proof.
  revert s. induction evs as [|ev evs IH]; intros s Hinv H; [exact H|].
  simpl. apply IH; [now apply step_invariant|].
  destruct ev as [r|statusCode headers|p o]; simpl.
  - now apply onProxyReq_calls.
  - now apply onProxyRes_calls.
  - apply onAxiosSettled_calls; [|exact H]. apply Hinv.
Qed.

End Calls.

(** X14.  At most one call of [doHeadlessLogin] is in flight at any moment of
    any run, in both builds and under every configuration: until the
    middleware is installed it is the startup call, afterwards it is the
    refresh that [activeRefreshPromise] names, or none when the slot is
    empty. *)
Theorem X14_at_most_one_login_in_flight (b : Build) (opts : NormalizedOptions)
  (evs : list Event) :
  let s := run b opts (configureServer b opts) evs in
  List.length (pending s) <= 1
  /\ match proxy s with
     | None => pending s = [(0, Startup)]
     | Some None => pending s = []
     | Some (Some p) => pending s = [(p, Refresh)]
     end.
Proof.
  intros s.
  destruct (run_calls b opts evs _ (configureServer_invariant b opts)
              (configureServer_calls b opts)) as [Hone _].
  fold s in Hone. unfold oneCallInFlight in Hone. split; [|exact Hone].
  destruct (proxy s) as [[p|]|]; rewrite Hone; simpl; lia.
Qed.

(** ** The machine: hooks and the jar *)

(** X16.  [gateRefresh] never holds a request back.  In every state a run
    reaches, in both builds, no [proxyReq] hook is parked; and once the
    middleware is installed a [proxyReq] hook composes its cookies at once,
    from the jar as it is at that moment, whether or not a login is in
    flight.  (Before that the middleware does not exist and the request is not
    the proxy's.) *)
Theorem X16_gateRefresh_never_suspends (b : Build) (opts : NormalizedOptions)
  (evs : list Event) (r : ClientRequest) :
  let s := run b opts (configureServer b opts) evs in
  parked s = []
  /\ step b opts s (ProxyReq r)
     = match proxy s with
       | None => s
       | Some _ => composeCookies r s
       end.
Proof.
  intros s.
  destruct (run_invariant b opts evs _ (configureServer_invariant b opts))
    as [_ (_ & Hpark & Hgate)].
  fold s in Hpark, Hgate. split; [exact Hpark|].
  simpl. unfold onProxyReq. destruct (proxy s) as [a|]; [|reflexivity].
  destruct Hgate as [_ ->]. reflexivity.
Qed.

Lemma onProxyRes_jar (b : Build) (opts : NormalizedOptions)
  (statusCode : option Z) (headers : IncomingHttpHeaders) (s : Server) :
  jar (store (onProxyRes b opts statusCode headers s))
  = match proxy s with
    | None => jar (store s)
    | Some _ => fst (storeCookies b (jar (store s)) (set_cookie headers))
    end.
Proof.
  unfold onProxyRes. destruct (proxy s) as [a|]; [|reflexivity].
  unfold storeCookiesStmt.
  destruct (storeCookies b (jar (store s)) (set_cookie headers)) as [jar' [|e]];
    [|reflexivity].
  destruct (unauthDetector opts _ headers); [|reflexivity].
  destruct a as [p|]; [reflexivity|].
  unfold callDoHeadlessLogin. destruct (headlessLogin opts); reflexivity.
Qed.

(** X17.  The [proxyRes] hook merges the Set-Cookie lines of every response
    it sees, before and regardless of what the status or the detector says:
    with the middleware installed, the jar after the hook is the jar
    [storeCookies] leaves, also when the response is not unauthenticated,
    when a refresh starts, and when [storeCookies] throws half way. *)
Theorem X17_proxyRes_merges_whatever_the_status (b : Build)
  (opts : NormalizedOptions) (statusCode : option Z)
  (headers : IncomingHttpHeaders) (s : Server) :
  jar (store (onProxyRes b opts statusCode headers s))
  = match proxy s with
    | None => jar (store s)
    | Some _ => fst (storeCookies b (jar (store s)) (set_cookie headers))
    end.
Proof. apply onProxyRes_jar. Qed.

Section JarOverRuns.

Variable b : Build.
Variable opts : NormalizedOptions.

(** A step leaves the jar alone or changes it by one [storeCookies]. *)
Lemma step_jar (s : Server) (ev : Event) :
  parked s = [] ->
  jar (store (step b opts s ev)) = jar (store s)
  \/ exists raw,
       jar (store (step b opts s ev)) = fst (storeCookies b (jar (store s)) raw).
Proof.
  intros Hpark. destruct ev as [r|statusCode headers|p o]; simpl.
  - left. unfold onProxyReq. destruct (proxy s); [|reflexivity].
    destruct (refreshingPromise s) as [g|]; [destruct (isPending s g)|];
      reflexivity.
  - rewrite onProxyRes_jar. destruct (proxy s); [|now left].
    right. now exists (set_cookie headers).
  - unfold onAxiosSettled. destruct (callerOf (pending s) p) as [c|]; [|now left].
    rewrite resumeParked_nobody
      by (destruct c; [destruct b|]; simpl; exact Hpark).
    assert (Hjar : jar (fst (afterAxios b (labelOf c) o (store s))) = jar (store s)
                   \/ exists raw,
                        jar (fst (afterAxios b (labelOf c) o (store s)))
                        = fst (storeCookies b (jar (store s)) raw)).
    { unfold afterAxios, tryCatch. destruct o as [headers|e]; [|now left].
      right. exists (set_cookie headers). unfold andThen, storeCookiesStmt.
      destruct (storeCookies b (jar (store s)) (set_cookie headers))
        as [jar' [|e]]; reflexivity. }
    destruct c; [destruct b|]; simpl; exact Hjar.
Qed.

Lemma run_jar_names_distinct (evs : list Event) (s : Server) :
  invariant b s ->
  NoDup (JsMap.keys (jar (store s))) ->
  NoDup (JsMap.keys (jar (store (run b opts s evs)))).
Proof.
  revert s. induction evs as [|ev evs IH]; intros s Hinv Hnd; [exact Hnd|].
  simpl. apply IH; [now apply step_invariant|].
  destruct (step_jar s ev) as [->|[raw ->]];
    [apply Hinv | exact Hnd | now apply storeCookies_keeps_names_distinct].
Qed.

End JarOverRuns.

(** X18.  The jar over a run.  In every state a run reaches the names in
    the jar are distinct, and no step of the machine, be it a request, a
    response or the end of a login, removes a name from it: the proxy never
    expires or clears a cookie. *)
Theorem X18_jar_names_distinct_and_never_removed (b : Build)
  (opts : NormalizedOptions) (evs : list Event) (ev : Event) :
  let s := run b opts (configureServer b opts) evs in
  NoDup (JsMap.keys (jar (store s)))
  /\ incl (JsMap.keys (jar (store s)))
          (JsMap.keys (jar (store (step b opts s ev)))).
Proof.
  intros s.
  pose proof (run_invariant b opts evs _ (configureServer_invariant b opts))
    as Hinv.
  fold s in Hinv. split.
  - apply run_jar_names_distinct; [apply configureServer_invariant|].
    unfold configureServer, callDoHeadlessLogin.
    destruct (headlessLogin opts); [destruct b|]; constructor.
  - destruct (step_jar b opts s ev) as [->|[raw ->]];
      [apply Hinv | apply incl_refl |].
    intros name. apply storeCookies_keeps_names.
Qed.

Lemma allInOne_step_never_throws (opts : NormalizedOptions) (s : Server)
  (ev : Event) :
  parked s = [] ->
  countObs isHandlerThrew (history (step AllInOne opts s ev))
  = countObs isHandlerThrew (history s).
Proof.
  intros Hpark. destruct ev as [r|statusCode headers|p o]; simpl.
  - unfold onProxyReq. destruct (proxy s); [|reflexivity].
    destruct (refreshingPromise s) as [g|]; [destruct (isPending s g)|];
      simpl; rewrite ?countObs_snoc; simpl; lia.
  - unfold onProxyRes. destruct (proxy s) as [a|]; [|reflexivity].
    unfold storeCookiesStmt. simpl storeCookies.
    pose proof (index_storeCookies_completes (jar (store s)) (set_cookie headers))
      as Hc.
    destruct (Index.storeCookies (jar (store s)) (set_cookie headers))
      as [jar' [|e]]; simpl in Hc; [|discriminate].
    destruct (unauthDetector opts _ headers); [|reflexivity].
    destruct a as [p|]; [reflexivity|].
    unfold callDoHeadlessLogin. destruct (headlessLogin opts); simpl;
      rewrite ?countObs_snoc; simpl; rewrite ?countObs_snoc; simpl; lia.
  - unfold onAxiosSettled. destruct (callerOf (pending s) p) as [c|];
      [|reflexivity].
    rewrite resumeParked_nobody by (destruct c; simpl; exact Hpark).
    destruct c; simpl; rewrite countObs_snoc; simpl; lia.
Qed.

(** X19.  In the build of index.ts no hook ever throws: over every run, no
    [proxyRes] hook is left by an exception, whatever Set-Cookie lines the
    responses carry. *)
Theorem X19_allInOne_hooks_never_throw (opts : NormalizedOptions)
  (evs : list Event) :
  countObs isHandlerThrew
    (history (run AllInOne opts (configureServer AllInOne opts) evs)) = 0.
Proof.
  assert (H : forall evs s,
             invariant AllInOne s ->
             countObs isHandlerThrew (history (run AllInOne opts s evs))
             = countObs isHandlerThrew (history s)).
  { clear evs. induction evs as [|ev evs IH]; intros s Hinv; [reflexivity|].
    simpl. rewrite IH by (now apply step_invariant).
    apply allInOne_step_never_throws, Hinv. }
  rewrite H by apply configureServer_invariant.
  unfold configureServer, callDoHeadlessLogin.
  destruct (headlessLogin opts); reflexivity.
Qed.

Lemma login_off_stays_idle (b : Build) (opts : NormalizedOptions)
  (evs : list Event) (s : Server) :
  headlessLogin opts = None ->
  proxy s = Some None -> pending s = [] ->
  proxy (run b opts s evs) = Some None /\ pending (run b opts s evs) = [].
Proof.
  intros Hoff. revert s. induction evs as [|ev evs IH]; intros s Hpx Hp;
    [now split|].
  simpl. apply IH; destruct ev as [r|statusCode headers|p o]; simpl.
  - unfold onProxyReq. rewrite Hpx.
    destruct (refreshingPromise s) as [g|]; [destruct (isPending s g)|];
      exact Hpx.
  - unfold onProxyRes. rewrite Hpx.
    destruct (storeCookiesStmt b (set_cookie headers) (store s)) as [st' [|e]];
      [|exact Hpx].
    destruct (unauthDetector opts _ headers); [|exact Hpx].
    unfold callDoHeadlessLogin. rewrite Hoff. reflexivity.
  - unfold onAxiosSettled. rewrite Hp. exact Hpx.
  - unfold onProxyReq. rewrite Hpx.
    destruct (refreshingPromise s) as [g|]; [destruct (isPending s g)|];
      exact Hp.
  - unfold onProxyRes. rewrite Hpx.
    destruct (storeCookiesStmt b (set_cookie headers) (store s)) as [st' [|e]];
      [|exact Hp].
    destruct (unauthDetector opts _ headers); [|exact Hp].
    unfold callDoHeadlessLogin. rewrite Hoff. exact Hp.
  - unfold onAxiosSettled. rewrite Hp. exact Hp.
Qed.

(** X20.  With [headlessLogin] off, which is the default, the middleware is
    installed from the first step on and no call of [doHeadlessLogin] is ever
    left pending: every call made has already returned, the refresh slot is
    empty in every state of every run, and the end of an axios call, should
    one be reported, changes nothing. *)
Theorem X20_login_off_nothing_pending (b : Build) (opts : NormalizedOptions)
  (evs : list Event) :
  headlessLogin opts = None ->
  let s := run b opts (configureServer b opts) evs in
  proxy s = Some None
  /\ pending s = []
  /\ countObs isLoginSettled (history s) = started s
  /\ (forall p o, step b opts s (AxiosSettles p o) = s).
Proof.
  intros Hoff s.
  assert (Hidle : proxy s = Some None /\ pending s = []).
  { apply login_off_stays_idle; [exact Hoff| |];
      unfold configureServer, callDoHeadlessLogin; rewrite Hoff; reflexivity. }
  destruct Hidle as [Hpx Hp].
  destruct (run_calls b opts evs _ (configureServer_invariant b opts)
              (configureServer_calls b opts)) as [_ [_ Hacc]].
  fold s in Hacc. rewrite Hp in Hacc. simpl in Hacc.
  repeat split; try assumption; [lia|].
  intros p o. simpl. unfold onAxiosSettled. now rewrite Hp.
Qed.

Lemma X20_login_off_nothing_pending_witness :
  let opts := normalizeOptions noOptions in
  let s := run Modular opts (configureServer Modular opts)
             [ProxyRes (Some 401%Z) noHeaders;
              ProxyReq {| reqId := 1; cookie := None |};
              ProxyRes (Some 401%Z) noHeaders] in
  proxy s = Some None
  /\ pending s = []
  /\ countObs isLoginSettled (history s) = started s
  /\ (forall p o, step Modular opts s (AxiosSettles p o) = s).
Proof.
  apply (X20_login_off_nothing_pending Modular (normalizeOptions noOptions)
           [ProxyRes (Some 401%Z) noHeaders;
            ProxyReq {| reqId := 1; cookie := None |};
            ProxyRes (Some 401%Z) noHeaders]).
  reflexivity.
Defined.

(** ** The address of the iframe *)

Lemma indexOf_within (c : ascii) (s : string) :
  (Js.indexOf c s < Z.of_nat (String.length s))%Z.
Proof.
  induction s as [|d s IH]; simpl String.length; simpl Js.indexOf; [lia|].
  destruct (Ascii.eqb d c); [lia|].
  destruct (Js.indexOf c s <? 0)%Z eqn:E; lia.
Qed.

Lemma indexOf_append_found (c : ascii) (a b : string) :
  (0 <= Js.indexOf c a)%Z -> Js.indexOf c (a ++ b) = Js.indexOf c a.
Proof.
  induction a as [|d a IH]; simpl; [lia|].
  destruct (Ascii.eqb d c); [reflexivity|].
  pose proof (indexOf_lower_bound c a).
  destruct (Js.indexOf c a <? 0)%Z eqn:E; [lia|].
  intros _. pose proof E as E'. apply Z.ltb_ge in E'.
  now rewrite (IH E'), E.
Qed.

(** X21.  The address given to the hidden iframe always begins with
    [validateUrl].  With an empty [iframeParam] it is [validateUrl] itself.
    Otherwise it is [validateUrl], one separator and [iframeParam], nothing
    after it; the separator is [?] when [validateUrl] holds no [?] and [&]
    when it holds one, so that the address has a [?] no later than the
    separator.  The URL is not taken apart: the parameter goes to the very
    end of the address, which for a [validateUrl] with a fragment is the end
    of the fragment. *)
Theorem X21_iframeSrc_appends_after_one_separator
  (validateUrl iframeParam : string) :
  let src := IframeScript.iframeSrc validateUrl iframeParam in
  Js.startsWith src validateUrl = true
  /\ match iframeParam with
     | EmptyString => src = validateUrl
     | String _ _ =>
         src = (validateUrl
                ++ String (if (Js.indexOf "?" validateUrl =? -1)%Z
                           then "?"%char else "&"%char)
                     iframeParam)%string
         /\ (0 <= Js.indexOf "?" src <= Z.of_nat (String.length validateUrl))%Z
         /\ forall base fragment : string,
              validateUrl = (base ++ "#" ++ fragment)%string ->
              exists glue : ascii,
                src = (base ++ "#" ++ (fragment ++ String glue iframeParam))%string
     end.
Proof.
  intros src. subst src. unfold IframeScript.iframeSrc. split.
  - apply prefix_iff. eexists. reflexivity.
  - destruct iframeParam as [|c param]; [apply append_nil_r|].
    simpl Js.truthy. cbv iota.
    unfold IframeScript.paramGlue, IframeScript.includes.
    pose proof (indexOf_lower_bound "?" validateUrl) as Hlb.
    pose proof (indexOf_within "?" validateUrl) as Hub.
    destruct (Js.indexOf "?" validateUrl =? -1)%Z eqn:E; simpl negb; cbv iota.
    + apply Z.eqb_eq in E. split; [reflexivity|]. split.
      * change ("?" ++ String c param)%string with (String "?" (String c param)).
        rewrite (indexOf_at_first _ _ _ E). lia.
      * intros base fragment ->. exists "?"%char.
        now rewrite !append_assoc.
    + apply Z.eqb_neq in E. split; [reflexivity|]. split.
      * rewrite indexOf_append_found by lia. lia.
      * intros base fragment ->. exists "&"%char.
        now rewrite !append_assoc.
Qed.

(** ** The [error] hook *)


(** ** The remaining defaults *)

(** X23.  The defaults of [normalizeOptions] in the two builds.  Both give
    the same [insecureTLS], [ws] and [iframeParam], and an [iframeParam] set
    to the empty string stays empty.  options.ts never yields an empty
    [authCookieName] or [ssoCompleteMessage]; index.ts keeps an empty string
    that was configured, and that is the only case in which the two differ.
    In index.ts [cookieDomainRewrite] is ["localhost"] when left out and is
    never [true]. *)
Theorem X23_normalizeOptions_defaults (opts : PlainOptions) :
  let m := normalizePlainOptions Modular opts in
  let a := normalizePlainOptions AllInOne opts in
  insecureTLS m = insecureTLS a
  /\ ws m = ws a
  /\ iframeParam m = iframeParam a
  /\ (opt_iframeParam opts = Some EmptyString -> iframeParam m = EmptyString)
  /\ authCookieName m <> EmptyString
  /\ ssoCompleteMessage m <> EmptyString
  /\ (authCookieName m = authCookieName a
      <-> opt_authCookieName opts <> Some EmptyString)
  /\ (ssoCompleteMessage m = ssoCompleteMessage a
      <-> opt_ssoCompleteMessage opts <> Some EmptyString)
  /\ cookieDomainRewrite a <> Some (RewriteFlag true)
  /\ (opt_cookieDomainRewrite opts = None ->
      cookieDomainRewrite a = Some (RewriteTo "localhost")).
Proof.
  destruct opts as [tls w ifp name msg cdr]. simpl.
  repeat split; try reflexivity.
  - intros ->. reflexivity.
  - destruct name as [[|c n]|]; discriminate.
  - destruct msg as [[|c n]|]; discriminate.
  - destruct name as [[|c n]|]; simpl; intros H; congruence.
  - destruct name as [[|c n]|]; simpl; intros H; try reflexivity. congruence.
  - destruct msg as [[|c n]|]; simpl; intros H; congruence.
  - destruct msg as [[|c n]|]; simpl; intros H; try reflexivity. congruence.
  - destruct cdr as [[d|[|]|t]|]; discriminate.
  - intros ->. reflexivity.
Qed.

(** ** The end of a login *)

(** X24.  When the axios call of a pending [doHeadlessLogin] ends, in any
    state a run reaches and in both builds: a response has its Set-Cookie
    lines merged into the shared jar (as far as [storeCookies] gets), a
    rejection leaves the jar as it was; either way the call is no longer
    pending, the middleware is installed and the refresh slot is empty, so
    the next unauthenticated response can start a new refresh. *)
Theorem X24_login_end_merges_and_frees_the_slot (b : Build)
  (opts : NormalizedOptions) (evs : list Event) (p : nat) (o : AxiosOutcome) :
  let s := run b opts (configureServer b opts) evs in
  isPending s p = true ->
  let s' := step b opts s (AxiosSettles p o) in
  jar (store s')
  = match o with
    | AxiosResponse headers =>
        fst (storeCookies b (jar (store s)) (set_cookie headers))
    | AxiosError _ => jar (store s)
    end
  /\ proxy s' = Some None
  /\ pending s' = []
  /\ history s' = history s ++ [LoginSettled p].
Proof.
  intros s Hp s'. subst s'.
  destruct (run_invariant b opts evs _ (configureServer_invariant b opts))
    as [_ (_ & Hpark & _)].
  destruct (run_calls b opts evs _ (configureServer_invariant b opts)
              (configureServer_calls b opts)) as [Hone _].
  fold s in Hpark, Hone.
  assert (Hlist : exists c, pending s = [(p, c)]).
  { unfold oneCallInFlight in Hone. unfold isPending in Hp.
    destruct (proxy s) as [[q|]|]; rewrite Hone in Hp |- *;
      cbn [existsb fst] in Hp; try discriminate;
      rewrite orb_false_r in Hp; apply Nat.eqb_eq in Hp;
      subst; eexists; reflexivity. }
  destruct Hlist as [c Hlist].
  simpl. unfold onAxiosSettled. rewrite Hlist. simpl. rewrite Nat.eqb_refl.
  rewrite resumeParked_nobody
    by (destruct c; [destruct b|]; simpl; exact Hpark).
  assert (Hjar : jar (fst (afterAxios b (labelOf c) o (store s)))
                 = match o with
                   | AxiosResponse headers =>
                       fst (storeCookies b (jar (store s)) (set_cookie headers))
                   | AxiosError _ => jar (store s)
                   end).
  { unfold afterAxios, tryCatch. destruct o as [headers|e]; [|reflexivity].
    unfold andThen, storeCookiesStmt.
    destruct (storeCookies b (jar (store s)) (set_cookie headers))
      as [jar' [|e]]; reflexivity. }
  destruct c; [destruct b|]; simpl; rewrite ?Hlist; simpl;
    rewrite ?Nat.eqb_refl; simpl; repeat split; exact Hjar.
Qed.

Lemma X24_login_end_merges_and_frees_the_slot_witness :
  let s := run Modular loginOn (configureServer Modular loginOn)
             [AxiosSettles 0 (AxiosResponse (withSetCookie ["session=old"]));
              ProxyRes (Some 401%Z) noHeaders] in
  let s' := step Modular loginOn s
              (AxiosSettles 1 (AxiosResponse (withSetCookie ["session=new"]))) in
  jar (store s')
  = fst (storeCookies Modular (jar (store s))
           (set_cookie (withSetCookie ["session=new"])))
  /\ proxy s' = Some None
  /\ pending s' = []
  /\ history s' = history s ++ [LoginSettled 1].
Proof.
  apply (X24_login_end_merges_and_frees_the_slot Modular loginOn
           [AxiosSettles 0 (AxiosResponse (withSetCookie ["session=old"]));
            ProxyRes (Some 401%Z) noHeaders]
           1 (AxiosResponse (withSetCookie ["session=new"]))).
  reflexivity.
Defined.
